(** * s3_janitor: a shallow embedding of the multipart-upload janitor

    The Go program has three source files:
    - package [s3Access] (the thin wrappers around the S3 client:
      [ListS3Buckets], [AbortFailedMultipartUploadsInBucket],
      [AbortFailedMultipartUploadsInAllBuckets], credential loading);
    - package [config] (reading [~/.aws/config], opening a session);
    - package [main] (flag guard, [discover], the interactive [menu]).

    Every call that leaves the program (AWS SDK, promptui, ini, cobra's flag
    parser) is a field of the record [SDK]; the Go functions are written in a
    state monad over the outside world, the three global flag variables and a
    log of the calls made and the text written to standard output. *)

From Stdlib Require Import String Ascii List ZArith Bool Arith Lia.
Import ListNotations.
Local Open Scope string_scope.

(** Messages are left as written when goals are simplified. *)
Arguments String.append : simpl never.

(* ================================================================= *)
(** ** Go values *)

(** A Go pointer [*T]; [None] is [nil]. *)
Definition ptr (A : Type) : Type := option A.

(** A Go [error] value.  [LibErr] is an error made by a library (for the AWS
    SDK: the [Code] and [Message] of an [awserr.Error]); [Errorf] is the
    result of [fmt.Errorf], which keeps only the formatted text. *)
Inductive error : Type :=
| LibErr (code message : string)
| Errorf (text : string).

(** [err.Error()], which is what the verb [%v] prints for an error. *)
Definition Error (e : error) : string :=
  match e with
  | LibErr code message => code ++ ": " ++ message
  | Errorf text => text
  end.

Definition LF : string := String (ascii_of_nat 10) EmptyString.

(** Writing index [i] of a slice; the callers below only write in range. *)
Fixpoint set_index {A : Type} (l : list A) (i : nat) (v : A) : list A :=
  match l, i with
  | [], _ => []
  | _ :: t, O => v :: t
  | h :: t, S j => h :: set_index t j v
  end.

(* ================================================================= *)
(** ** The parts of the AWS SDK data model the program touches *)

Module s3.

(** [s3.Bucket] *)
Record Bucket : Type := {
  Name : ptr string;
  CreationDate : ptr Z
}.

(** [s3.ListBucketsOutput] *)
Record ListBucketsOutput : Type := {
  Buckets : list (ptr Bucket)
}.

(** [s3.MultipartUpload]; [Initiated] is a time in seconds. *)
Record MultipartUpload : Type := {
  Key : ptr string;
  UploadId : ptr string;
  Initiated : ptr Z
}.

(** [s3.ListMultipartUploadsInput]: the bucket and the two markers from
    which a listing continues. *)
Record ListMultipartUploadsInput : Type := {
  lin_Bucket : ptr string;
  lin_KeyMarker : ptr string;
  lin_UploadIdMarker : ptr string
}.

(** [s3.ListMultipartUploadsOutput]: one page. *)
Record ListMultipartUploadsOutput : Type := {
  Uploads : list (ptr MultipartUpload);
  IsTruncated : ptr bool;
  NextKeyMarker : ptr string;
  NextUploadIdMarker : ptr string
}.

(** [s3.AbortMultipartUploadInput] *)
Record AbortMultipartUploadInput : Type := {
  ain_Bucket : ptr string;
  ain_Key : ptr string;
  ain_UploadId : ptr string
}.

(** The service client [*s3.S3] built by [s3.New(sess, cfgs...)]: the
    session and the region override, when one is given. *)
Record S3 (Session : Type) : Type := {
  svc_sess : Session;
  svc_region : option string
}.
Arguments svc_sess {Session} _.
Arguments svc_region {Session} _.

Definition New {Session : Type} (sess : Session) (region : option string)
  : S3 Session :=
  {| svc_sess := sess; svc_region := region |}.

End s3.

(** A section of the ini file: its name and its keys. *)
Record IniSection : Type := {
  sec_Name : string;
  sec_Keys : list (string * string)
}.

(** [section.Key(k).String()]: the value, or the empty string. *)
Fixpoint sec_Key (keys : list (string * string)) (k : string) : string :=
  match keys with
  | [] => ""
  | (k', v) :: rest => if String.eqb k' k then v else sec_Key rest k
  end.

(** [aws.ProfileConfig] of the program's own package. *)
Record ProfileConfig : Type := {
  pc_Name : string;
  pc_Region : string
}.

(** The three package-level variables of [main]. *)
Record Flags : Type := {
  discoverFlag : bool;
  profileFlag : string;
  helpFlag : bool
}.

Definition initFlags : Flags :=
  {| discoverFlag := false; profileFlag := ""; helpFlag := false |}.

(* ================================================================= *)
(** ** The outside world *)

(** Everything the program calls outside its own three files.  An operation
    takes the world and gives its answer and the next world; a Go result
    [(v, err)] is a sum, [inl err] when [err != nil].

    [CreateAWSSessionWithCredentials] is called by [main] but is not in the
    repository's sources, so it is taken as an operation of the world too.
    [cobra_ParseFlags] stands for what [rootCmd.Execute] does before it calls
    [Run]: [inr f] are the flag values it stores, [inl e] is an error it
    returns without calling [Run]. *)
Record SDK : Type := {
  World : Type;
  Session : Type;
  Config : Type;
  Credentials : Type;
  s3_ListBuckets :
    s3.S3 Session -> World -> (error + s3.ListBucketsOutput) * World;
  s3_ListMultipartUploads :
    s3.S3 Session -> s3.ListMultipartUploadsInput -> World ->
    (error + s3.ListMultipartUploadsOutput) * World;
  s3_AbortMultipartUpload :
    s3.S3 Session -> s3.AbortMultipartUploadInput -> World ->
    (error + unit) * World;
  config_LoadDefaultConfig : string -> World -> (error + Config) * World;
  Credentials_Retrieve : Config -> World -> (error + Credentials) * World;
  session_NewSessionWithOptions : string -> World -> (error + Session) * World;
  CreateAWSSessionWithCredentials :
    string -> Credentials -> World -> (error + Session) * World;
  ini_Load : string -> World -> (error + list IniSection) * World;
  os_Getenv : string -> World -> string;
  filepath_Join : list string -> string;
  promptui_Run : string -> list string -> World -> (error + (nat * string)) * World;
  cobra_ParseFlags : list string -> error + Flags
}.

(** How a Go function call ends: it returns, it panics (a nil pointer is
    dereferenced), the process exits, or the bounded unrolling of an
    endless [for] ran out. *)
Inductive res (A : Type) : Type :=
| Ret (a : A)
| Panic
| Exit (code : Z)
| OutOfFuel.
Arguments Ret {A} a.
Arguments Panic {A}.
Arguments Exit {A} code.
Arguments OutOfFuel {A}.

Section Program.

Context (P : SDK).

Definition S3 : Type := s3.S3 (Session P).

(** What the program does that can be seen from outside, in order. *)
Inductive Event : Type :=
| Stdout (text : string)
| EvListBuckets (svc : S3)
| EvListMultipartUploads (svc : S3) (input : s3.ListMultipartUploadsInput)
| EvAbortMultipartUpload (svc : S3) (input : s3.AbortMultipartUploadInput)
| EvLoadDefaultConfig (profile : string)
| EvRetrieve (cfg : Config P)
| EvNewSession (profile : string)
| EvCreateSession (profile : string) (creds : Credentials P)
| EvIniLoad (path : string)
| EvPrompt (label : string) (items : list string)
| EvHelp.

Record State : Type := {
  world : World P;
  flags : Flags;
  trace : list Event
}.

Definition M (A : Type) : Type := State -> res A * State.

Definition ret {A : Type} (a : A) : M A := fun s => (Ret a, s).

Definition bind {A B : Type} (c : M A) (k : A -> M B) : M B :=
  fun s =>
    match c s with
    | (Ret a, s') => k a s'
    | (Panic, s') => (Panic, s')
    | (Exit code, s') => (Exit code, s')
    | (OutOfFuel, s') => (OutOfFuel, s')
    end.

Definition panic {A : Type} : M A := fun s => (Panic, s).

Definition os_Exit {A : Type} (code : Z) : M A := fun s => (Exit code, s).

Definition emit (e : Event) : M unit :=
  fun s => (Ret tt, {| world := world s; flags := flags s;
                       trace := trace s ++ [e] |}).

(** A call into the world: it is logged, then answered. *)
Definition call {A : Type} (e : Event) (op : World P -> A * World P) : M A :=
  fun s =>
    let (a, w) := op (world s) in
    (Ret a, {| world := w; flags := flags s; trace := trace s ++ [e] |}).

Definition getFlags : M Flags := fun s => (Ret (flags s), s).

Definition setFlags (f : Flags) : M unit :=
  fun s => (Ret tt, {| world := world s; flags := f; trace := trace s |}).

(** [*p] *)
Definition deref {A : Type} (p : ptr A) : M A :=
  match p with
  | Some a => ret a
  | None => panic
  end.

(** [fmt.Printf] and [fmt.Println] with the text already formatted. *)
Definition fmt_Print (text : string) : M unit := emit (Stdout text).

End Program.

Arguments ret {P A} a _.
Arguments bind {P A B} c k _.
Arguments panic {P A} _.
Arguments os_Exit {P A} code _.
Arguments emit {P} e _.
Arguments call {P A} e op _.
Arguments getFlags {P} _.
Arguments setFlags {P} f _.
Arguments deref {P A} p _.
Arguments fmt_Print {P} text _.
Arguments world {P} _.
Arguments flags {P} _.
Arguments trace {P} _.
Arguments Stdout {P} text.
Arguments EvListBuckets {P} svc.
Arguments EvListMultipartUploads {P} svc input.
Arguments EvAbortMultipartUpload {P} svc input.
Arguments EvLoadDefaultConfig {P} profile.
Arguments EvRetrieve {P} cfg.
Arguments EvNewSession {P} profile.
Arguments EvCreateSession {P} profile creds.
Arguments EvIniLoad {P} path.
Arguments EvPrompt {P} label items.
Arguments EvHelp {P}.

Declare Scope go_scope.
Delimit Scope go_scope with go.
Notation "x <- c ;; k" := (bind c (fun x => k))
  (at level 100, c at next level, right associativity) : go_scope.
Notation "c ;;; k" := (bind c (fun _ => k))
  (at level 100, right associativity) : go_scope.
Local Open Scope go_scope.

(* ================================================================= *)
(** ** Package s3Access *)

Section S3Access.

Context {P : SDK}.

(** [LoadAWSConfigForProfile(ctx, profile)]; the context argument carries
    nothing the program uses and is left out. *)
Definition LoadAWSConfigForProfile (profile : string)
  : M P (error + Config P) :=
  let profile := if String.eqb profile "" then "default" else profile in
  r <- call (EvLoadDefaultConfig profile) (config_LoadDefaultConfig P profile) ;;
  match r with
  | inl err =>
      ret (inl (Errorf ("failed to load AWS config for profile " ++ profile
                        ++ ": " ++ Error err)))
  | inr cfg => ret (inr cfg)
  end.

(** [GetCredentialsForProfile(ctx, profile)] *)
Definition GetCredentialsForProfile (profile : string)
  : M P (error + Credentials P) :=
  r <- LoadAWSConfigForProfile profile ;;
  match r with
  | inl err => ret (inl err)
  | inr cfg =>
      r <- call (EvRetrieve cfg) (Credentials_Retrieve P cfg) ;;
      match r with
      | inl err =>
          ret (inl (Errorf ("failed to retrieve credentials for profile "
                            ++ profile ++ ": " ++ Error err)))
      | inr creds => ret (inr creds)
      end
  end.

(** The [for i, b := range result.Buckets] of [ListS3Buckets]: iteration [i]
    stores [*b.Name] at index [i] of [bucketNames]. *)
Fixpoint ListS3Buckets_loop (buckets : list (ptr s3.Bucket)) (i : nat)
    (bucketNames : list string) : M P (list string) :=
  match buckets with
  | [] => ret bucketNames
  | b :: rest =>
      b' <- deref b ;;
      name <- deref (s3.Name b') ;;
      ListS3Buckets_loop rest (S i) (set_index bucketNames i name)
  end.

(** [ListS3Buckets(sess)] *)
Definition ListS3Buckets (sess : Session P) : M P (error + list string) :=
  let s3Svc := s3.New sess (Some "ap-southeast-2") in
  r <- call (EvListBuckets s3Svc) (s3_ListBuckets P s3Svc) ;;
  match r with
  | inl err => ret (inl err)
  | inr result =>
      let bucketNames := repeat "" (length (s3.Buckets result)) in
      bucketNames <- ListS3Buckets_loop (s3.Buckets result) 0 bucketNames ;;
      ret (inr bucketNames)
  end.

(** The request [AbortFailedMultipartUploadsInBucket] builds for one upload. *)
Definition abortInput (bucketName : string) (upload : s3.MultipartUpload)
  : s3.AbortMultipartUploadInput :=
  {| s3.ain_Bucket := Some bucketName;
     s3.ain_Key := s3.Key upload;
     s3.ain_UploadId := s3.UploadId upload |}.

(** The [for _, upload := range uploads.Uploads] of
    [AbortFailedMultipartUploadsInBucket], with the [return nil] that
    follows it. *)
Fixpoint AbortFailedMultipartUploadsInBucket_loop (s3Svc : S3 P)
    (bucketName : string) (uploads : list (ptr s3.MultipartUpload))
  : M P (option error) :=
  match uploads with
  | [] => ret None
  | upload :: rest =>
      upload' <- deref upload ;;
      r <- call (EvAbortMultipartUpload s3Svc (abortInput bucketName upload'))
             (s3_AbortMultipartUpload P s3Svc (abortInput bucketName upload')) ;;
      match r with
      | inl err =>
          id <- deref (s3.UploadId upload') ;;
          key <- deref (s3.Key upload') ;;
          ret (Some (Errorf ("error aborting multipart upload " ++ id
                             ++ " for key " ++ key ++ ": " ++ Error err)))
      | inr _ => AbortFailedMultipartUploadsInBucket_loop s3Svc bucketName rest
      end
  end.

(** The one listing request the function makes: the bucket, no marker. *)
Definition listInput (bucketName : string) : s3.ListMultipartUploadsInput :=
  {| s3.lin_Bucket := Some bucketName;
     s3.lin_KeyMarker := None;
     s3.lin_UploadIdMarker := None |}.

(** [AbortFailedMultipartUploadsInBucket(sess, bucketName)] *)
Definition AbortFailedMultipartUploadsInBucket (sess : Session P)
    (bucketName : string) : M P (option error) :=
  let s3Svc := s3.New sess None in
  r <- call (EvListMultipartUploads s3Svc (listInput bucketName))
         (s3_ListMultipartUploads P s3Svc (listInput bucketName)) ;;
  match r with
  | inl err =>
      ret (Some (Errorf ("error listing multipart uploads for bucket "
                         ++ bucketName ++ ": " ++ Error err)))
  | inr uploads =>
      AbortFailedMultipartUploadsInBucket_loop s3Svc bucketName
        (s3.Uploads uploads)
  end.

(** The [for _, bucket := range buckets.Buckets] of
    [AbortFailedMultipartUploadsInAllBuckets], with the [return nil] that
    follows it. *)
Fixpoint AbortFailedMultipartUploadsInAllBuckets_loop (sess : Session P)
    (buckets : list (ptr s3.Bucket)) : M P (option error) :=
  match buckets with
  | [] => ret None
  | bucket :: rest =>
      bucket' <- deref bucket ;;
      name <- deref (s3.Name bucket') ;;
      err <- AbortFailedMultipartUploadsInBucket sess name ;;
      match err with
      | Some err =>
          ret (Some (Errorf ("error aborting multipart uploads in bucket "
                             ++ name ++ ": " ++ Error err)))
      | None => AbortFailedMultipartUploadsInAllBuckets_loop sess rest
      end
  end.

(** [AbortFailedMultipartUploadsInAllBuckets(sess)] *)
Definition AbortFailedMultipartUploadsInAllBuckets (sess : Session P)
  : M P (option error) :=
  let s3Svc := s3.New sess None in
  r <- call (EvListBuckets s3Svc) (s3_ListBuckets P s3Svc) ;;
  match r with
  | inl err => ret (Some (Errorf ("error listing buckets: " ++ Error err)))
  | inr buckets =>
      AbortFailedMultipartUploadsInAllBuckets_loop sess (s3.Buckets buckets)
  end.

End S3Access.

(* ================================================================= *)
(** ** Package config *)

Section ConfigPkg.

Context {P : SDK}.

(** [ReadAWSConfigFile()] *)
Definition ReadAWSConfigFile : M P (error + list ProfileConfig) :=
  home <- (fun s => (Ret (os_Getenv P "HOME" (world s)), s)) ;;
  let cfgPath := filepath_Join P [home; ".aws"; "config"] in
  r <- call (EvIniLoad cfgPath) (ini_Load P cfgPath) ;;
  match r with
  | inl err => ret (inl err)
  | inr sections =>
      ret (inr (fold_left
                  (fun profiles section =>
                     app profiles [ {| pc_Name := sec_Name section;
                                       pc_Region := sec_Key (sec_Keys section)
                                                      "region" |} ])
                  sections []))
  end.

(** The [for i, profile := range profiles] of [RetrieveConfiguredProfiles]. *)
Fixpoint RetrieveConfiguredProfiles_loop (profiles : list ProfileConfig)
    (i : nat) (names : list string) : list string :=
  match profiles with
  | [] => names
  | profile :: rest =>
      RetrieveConfiguredProfiles_loop rest (S i)
        (set_index names i (pc_Name profile))
  end.

(** [RetrieveConfiguredProfiles()] *)
Definition RetrieveConfiguredProfiles : M P (error + list string) :=
  r <- ReadAWSConfigFile ;;
  match r with
  | inl err => ret (inl err)
  | inr profiles =>
      let names := repeat "" (length profiles) in
      ret (inr (RetrieveConfiguredProfiles_loop profiles 0 names))
  end.

(** [EstablishConnectionUsingProfile(profileName)] *)
Definition EstablishConnectionUsingProfile (profileName : string)
  : M P (error + Session P) :=
  r <- call (EvNewSession profileName)
         (session_NewSessionWithOptions P profileName) ;;
  match r with
  | inl err => ret (inl err)
  | inr sess => ret (inr sess)
  end.

End ConfigPkg.

(* ================================================================= *)
(** ** Package main *)

Section MainPkg.

Context {P : SDK}.

Definition allProfiles : string := "ALL_PROFILES".

(** [GetProfileChoice()] *)
Definition GetProfileChoice : M P (error + string) :=
  r <- RetrieveConfiguredProfiles ;;
  match r with
  | inl err => ret (inl err)
  | inr profiles =>
      r <- call (EvPrompt "Please select a profile" profiles)
             (promptui_Run P "Please select a profile" profiles) ;;
      match r with
      | inl err => ret (inl err)
      | inr (_, result) => ret (inr result)
      end
  end.

(** [GetBucketChoice(profile)] *)
Definition GetBucketChoice (profile : string) : M P (error + string) :=
  r <- EstablishConnectionUsingProfile profile ;;
  match r with
  | inl err => ret (inl err)
  | inr session =>
      r <- ListS3Buckets session ;;
      match r with
      | inl err => ret (inl err)
      | inr buckets =>
          r <- call (EvPrompt "Please select a bucket" buckets)
                 (promptui_Run P "Please select a bucket" buckets) ;;
          match r with
          | inl err => ret (inl err)
          | inr (_, result) => ret (inr result)
          end
      end
  end.

(** [printFailedUploads(sess, bucketName)]: one line, no call to S3. *)
Definition printFailedUploads (sess : Session P) (bucketName : string)
  : M P unit :=
  fmt_Print ("Failed uploads for bucket: " ++ bucketName ++ LF).

(** The [for _, b := range buckets] of [discover]. *)
Fixpoint discover_loop (sess : Session P) (buckets : list string) : M P unit :=
  match buckets with
  | [] => ret tt
  | b :: rest => printFailedUploads sess b ;;; discover_loop sess rest
  end.

(** What follows the profile choice in [discover]. *)
Definition discover_rest : M P unit :=
  f <- getFlags ;;
  r <- GetCredentialsForProfile (profileFlag f) ;;
  match r with
  | inl credErr =>
      fmt_Print ("Error fetching credentials for " ++ profileFlag f ++ ": "
             ++ Error credErr ++ LF)
  | inr credentials =>
      r <- call (EvCreateSession (profileFlag f) credentials)
             (CreateAWSSessionWithCredentials P (profileFlag f) credentials) ;;
      match r with
      | inl err => fmt_Print ("Error creating session: " ++ Error err ++ LF)
      | inr sess =>
          r <- GetBucketChoice (profileFlag f) ;;
          match r with
          | inl err => fmt_Print ("Error selecting bucket: " ++ Error err ++ LF)
          | inr bucket =>
              if String.eqb bucket "ALL_BUCKETS" then
                r <- ListS3Buckets sess ;;
                match r with
                | inl err =>
                    fmt_Print ("Error retrieving buckets: " ++ Error err ++ LF)
                | inr buckets => discover_loop sess buckets
                end
              else printFailedUploads sess bucket
          end
      end
  end.

(** [discover(cmd, args)]; neither argument is used. *)
Definition discover : M P unit :=
  f <- getFlags ;;
  if String.eqb (profileFlag f) "" || String.eqb (profileFlag f) allProfiles
  then
    r <- GetProfileChoice ;;
    match r with
    | inl err => fmt_Print ("Error selecting profile: " ++ Error err ++ LF)
    | inr profile =>
        setFlags {| discoverFlag := discoverFlag f;
                    profileFlag := profile;
                    helpFlag := helpFlag f |} ;;;
        discover_rest
    end
  else discover_rest.

Definition choices : list string :=
  [ "Select the profile and bucket to expire";
    "Select the profile and all buckets to expire";
    "Expire all profiles and all buckets";
    "Exit" ].

(** How one pass through the body of [menu]'s [for] ends: [continue] (or
    the end of the body), or [return]. *)
Inductive ctl : Type := Continue | Return.

(** The first [case] of the [switch] in [menu], from the point where the
    user has picked [profile]. *)
Definition menu_case_bucket_rest (profile : string) : M P ctl :=
  f <- getFlags ;;
  r <- GetCredentialsForProfile (profileFlag f) ;;
  match r with
  | inl credErr =>
      fmt_Print ("Error fetching credentials for profile " ++ profileFlag f
             ++ ": " ++ Error credErr ++ LF) ;;;
      ret Return
  | inr credentials =>
      r <- call (EvCreateSession (profileFlag f) credentials)
             (CreateAWSSessionWithCredentials P (profileFlag f)
                credentials) ;;
      match r with
      | inl err =>
          fmt_Print ("Error creating session: " ++ Error err ++ LF) ;;;
          ret Return
      | inr sess =>
          r <- GetBucketChoice profile ;;
          match r with
          | inl err =>
              fmt_Print ("Error selecting bucket: " ++ Error err ++ LF) ;;;
              ret Continue
          | inr bucket =>
              fmt_Print ("You chose profile: " ++ profile ++ " and bucket: "
                     ++ bucket ++ LF) ;;;
              err <- AbortFailedMultipartUploadsInBucket sess bucket ;;
              match err with
              | Some err =>
                  fmt_Print ("Error occurred expiring multipart uploads in bucket "
                         ++ bucket ++ ", " ++ Error err ++ LF) ;;;
                  ret Continue
              | None => ret Continue
              end
          end
      end
  end.

(** The first [case] of the [switch] in [menu]. *)
Definition menu_case_bucket : M P ctl :=
  r <- GetProfileChoice ;;
  match r with
  | inl err =>
      fmt_Print ("Error selecting profile: " ++ Error err ++ LF) ;;; ret Continue
  | inr profile => menu_case_bucket_rest profile
  end.

(** The second [case]. *)
Definition menu_case_all_buckets : M P ctl :=
  r <- GetProfileChoice ;;
  match r with
  | inl err =>
      fmt_Print ("Error selecting profile: " ++ Error err ++ LF) ;;; ret Continue
  | inr profile =>
      fmt_Print ("You chose profile: " ++ profile
             ++ ". All buckets under this profile will be expired." ++ LF) ;;;
      ret Continue
  end.

(** One pass through the body of the [for] of [menu]. *)
Definition menu_body : M P ctl :=
  r <- call (EvPrompt "Please choose an option" choices)
         (promptui_Run P "Please choose an option" choices) ;;
  match r with
  | inl err => fmt_Print ("Prompt failed " ++ Error err ++ LF) ;;; ret Return
  | inr (_, result) =>
      if String.eqb result "Select the profile and bucket to expire" then
        menu_case_bucket
      else if String.eqb result "Select the profile and all buckets to expire"
      then menu_case_all_buckets
      else if String.eqb result "Expire all profiles and all buckets" then
        ret Continue
      else if String.eqb result "Exit" then
        fmt_Print ("Exiting..." ++ LF) ;;; ret Return
      else ret Continue
  end.

(** [menu()]: the [for] is endless, so it is unrolled [fuel] times. *)
Fixpoint menu (fuel : nat) : M P unit :=
  match fuel with
  | O => fun s => (OutOfFuel, s)
  | S fuel' =>
      c <- menu_body ;;
      match c with
      | Continue => menu fuel'
      | Return => ret tt
      end
  end.

(** The [Run] function of [rootCmd]. *)
Definition rootCmd_Run (fuel : nat) : M P unit :=
  f <- getFlags ;;
  if helpFlag f then emit EvHelp
  else if discoverFlag f then discover
  else menu fuel.

(** [rootCmd.Execute()]: cobra reads the flags from [os.Args[1:]] into the
    three variables and calls [Run], or returns an error. *)
Definition rootCmd_Execute (fuel : nat) (args : list string)
  : M P (option error) :=
  match cobra_ParseFlags P (tl args) with
  | inl err => ret (Some err)
  | inr f => setFlags f ;;; rootCmd_Run fuel ;;; ret None
  end.

Definition guardMessage : string :=
  "Error: --profile/-p flag can't be used alone. Use it with --discover/-d."
  ++ LF.

(** The second statement of [main]: run the command, and on an error print
    it and exit with status 1. *)
Definition main_execute (fuel : nat) (args : list string) : M P unit :=
  err <- rootCmd_Execute fuel args ;;
  match err with
  | Some err => fmt_Print (Error err ++ LF) ;;; os_Exit 1
  | None => ret tt
  end.

(** [main()], with [os.Args] as its argument. *)
Definition main (fuel : nat) (args : list string) : M P unit :=
  if (2 <=? length args)%nat
     && (String.eqb (nth 1 args "") "--profile"
         || String.eqb (nth 1 args "") "-p")
  then fmt_Print guardMessage
  else main_execute fuel args.

End MainPkg.

(* ================================================================= *)
(** ** A store to run the program against

    An in-memory stand-in for the services behind [SDK], used to run the
    functions above on concrete inputs.  [st_uploads] are the uploads in
    progress; [st_ghosts] are uploads that are gone but that a listing still
    shows (another process ended them, or the listing lags behind: with
    [st_lagging] an aborted upload becomes a ghost).  A listing returns at
    most [st_maxUploads] of a bucket's entries and says whether it was cut
    short; an abort removes the upload, answers [NoSuchUpload] when it is
    not in progress, and first serves any failure queued for that upload id
    in [st_faults].  A session is the name of the profile it acts for. *)

Module Sim.

Record Store : Type := {
  st_home : string;
  st_ini : error + list IniSection;
  st_buckets : list (string * list (ptr s3.Bucket));
  st_uploads : list (string * s3.MultipartUpload);
  st_ghosts : list (string * s3.MultipartUpload);
  st_lagging : bool;
  st_denied : list string;
  st_maxUploads : nat;
  st_faults : list (string * error);
  st_answers : list string
}.

Definition with_uploads (w : Store)
    (ups ghosts : list (string * s3.MultipartUpload)) : Store :=
  {| st_home := st_home w; st_ini := st_ini w; st_buckets := st_buckets w;
     st_uploads := ups; st_ghosts := ghosts; st_lagging := st_lagging w;
     st_denied := st_denied w; st_maxUploads := st_maxUploads w;
     st_faults := st_faults w; st_answers := st_answers w |}.

Definition with_faults (w : Store) (fs : list (string * error)) : Store :=
  {| st_home := st_home w; st_ini := st_ini w; st_buckets := st_buckets w;
     st_uploads := st_uploads w; st_ghosts := st_ghosts w;
     st_lagging := st_lagging w; st_denied := st_denied w;
     st_maxUploads := st_maxUploads w; st_faults := fs;
     st_answers := st_answers w |}.

Definition with_answers (w : Store) (a : list string) : Store :=
  {| st_home := st_home w; st_ini := st_ini w; st_buckets := st_buckets w;
     st_uploads := st_uploads w; st_ghosts := st_ghosts w;
     st_lagging := st_lagging w; st_denied := st_denied w;
     st_maxUploads := st_maxUploads w; st_faults := st_faults w;
     st_answers := a |}.

Fixpoint lookup {A : Type} (k : string) (l : list (string * A)) : option A :=
  match l with
  | [] => None
  | (k', v) :: rest => if String.eqb k' k then Some v else lookup k rest
  end.

Fixpoint mem (k : string) (l : list string) : bool :=
  match l with
  | [] => false
  | k' :: rest => String.eqb k' k || mem k rest
  end.

Definition eq_ptr (a b : ptr string) : bool :=
  match a, b with
  | Some x, Some y => String.eqb x y
  | None, None => true
  | _, _ => false
  end.

Definition profileOf (p : string) : string :=
  if String.eqb p "" then "default" else p.

Definition listBuckets (svc : s3.S3 string) (w : Store)
  : (error + s3.ListBucketsOutput) * Store :=
  match lookup (s3.svc_sess svc) (st_buckets w) with
  | Some bs => (inr {| s3.Buckets := bs |}, w)
  | None => (inl (LibErr "InvalidAccessKeyId" "unknown account"), w)
  end.

(** The uploads of a bucket, in listing order. *)
Definition uploadsOf (bucket : string)
    (ups : list (string * s3.MultipartUpload)) : list s3.MultipartUpload :=
  map snd (filter (fun bu => String.eqb (fst bu) bucket) ups).

Definition same_upload (key id : ptr string) (u : s3.MultipartUpload) : bool :=
  eq_ptr (s3.Key u) key && eq_ptr (s3.UploadId u) id.

(** What a listing that continues after the markers still has to show. *)
Fixpoint after_marker (key id : ptr string) (l : list s3.MultipartUpload)
  : list s3.MultipartUpload :=
  match l with
  | [] => []
  | u :: rest => if same_upload key id u then rest else after_marker key id rest
  end.

Definition listMultipartUploads (svc : s3.S3 string)
    (input : s3.ListMultipartUploadsInput) (w : Store)
  : (error + s3.ListMultipartUploadsOutput) * Store :=
  match s3.lin_Bucket input with
  | None => (inl (LibErr "InvalidParameter" "missing Bucket"), w)
  | Some bucket =>
      if mem bucket (st_denied w) then
        (inl (LibErr "AccessDenied" "Access Denied"), w)
      else
        let all := uploadsOf bucket (st_uploads w ++ st_ghosts w) in
        let todo := match s3.lin_KeyMarker input with
                    | None => all
                    | Some _ => after_marker (s3.lin_KeyMarker input)
                                  (s3.lin_UploadIdMarker input) all
                    end in
        let page := firstn (st_maxUploads w) todo in
        let more := (st_maxUploads w <? length todo)%nat in
        let final := last page {| s3.Key := None; s3.UploadId := None;
                                  s3.Initiated := None |} in
        (inr {| s3.Uploads := map Some page;
                s3.IsTruncated := Some more;
                s3.NextKeyMarker := if more then s3.Key final else None;
                s3.NextUploadIdMarker :=
                  if more then s3.UploadId final else None |}, w)
  end.

(** The first failure queued for an upload id, and the queue without it. *)
Fixpoint take_fault (id : string) (fs : list (string * error))
  : option (error * list (string * error)) :=
  match fs with
  | [] => None
  | (id', e) :: rest =>
      if String.eqb id' id then Some (e, rest)
      else match take_fault id rest with
           | Some (e', rest') => Some (e', (id', e) :: rest')
           | None => None
           end
  end.

Definition is_upload (bucket : string) (key id : ptr string)
    (bu : string * s3.MultipartUpload) : bool :=
  String.eqb (fst bu) bucket && same_upload key id (snd bu).

Definition abortMultipartUpload (svc : s3.S3 string)
    (input : s3.AbortMultipartUploadInput) (w : Store)
  : (error + unit) * Store :=
  match s3.ain_Bucket input, s3.ain_Key input, s3.ain_UploadId input with
  | Some bucket, Some key, Some id =>
      match take_fault id (st_faults w) with
      | Some (e, rest) => (inl e, with_faults w rest)
      | None =>
          if existsb (is_upload bucket (Some key) (Some id)) (st_uploads w)
          then (inr tt,
                with_uploads w
                  (filter (fun bu => negb (is_upload bucket (Some key)
                                             (Some id) bu))
                     (st_uploads w))
                  (if st_lagging w then
                     st_ghosts w
                     ++ filter (is_upload bucket (Some key) (Some id))
                          (st_uploads w)
                   else st_ghosts w))
          else (inl (LibErr "NoSuchUpload"
                       "The specified upload does not exist."), w)
      end
  | _, _, _ => (inl (LibErr "InvalidParameter" "missing field"), w)
  end.

Definition loadDefaultConfig (profile : string) (w : Store)
  : (error + string) * Store :=
  match lookup profile (st_buckets w) with
  | Some _ => (inr profile, w)
  | None => (inl (LibErr "SharedConfigProfileNotExist" profile), w)
  end.

Fixpoint index_of (x : string) (l : list string) : option nat :=
  match l with
  | [] => None
  | y :: rest => if String.eqb y x then Some O
                 else option_map S (index_of x rest)
  end.

(** The user picks the next answer of the script; an answer that is not on
    the list, or no answer left, ends the prompt with an error. *)
Definition run_prompt (label : string) (items : list string) (w : Store)
  : (error + (nat * string)) * Store :=
  match st_answers w with
  | [] => (inl (LibErr "promptui" "^D"), w)
  | a :: rest =>
      match index_of a items with
      | Some i => (inr (i, a), with_answers w rest)
      | None => (inl (LibErr "promptui" "^C"), with_answers w rest)
      end
  end.

Fixpoint parseFlags (args : list string) (f : Flags) : error + Flags :=
  match args with
  | [] => inr f
  | a :: rest =>
      if String.eqb a "--discover" || String.eqb a "-d" then
        parseFlags rest {| discoverFlag := true; profileFlag := profileFlag f;
                           helpFlag := helpFlag f |}
      else if String.eqb a "--help" || String.eqb a "-h" then
        parseFlags rest {| discoverFlag := discoverFlag f;
                           profileFlag := profileFlag f; helpFlag := true |}
      else if String.eqb a "--profile" || String.eqb a "-p" then
        match rest with
        | v :: rest' =>
            parseFlags rest' {| discoverFlag := discoverFlag f;
                                profileFlag := v; helpFlag := helpFlag f |}
        | [] => inl (LibErr "cobra" "flag needs an argument")
        end
      else inl (LibErr "cobra" ("unknown flag: " ++ a))
  end.

Fixpoint join (parts : list string) : string :=
  match parts with
  | [] => ""
  | [p] => p
  | p :: rest => p ++ "/" ++ join rest
  end.

(** What identifies an upload within its bucket. *)
Definition ident (u : s3.MultipartUpload) : ptr string * ptr string :=
  (s3.Key u, s3.UploadId u).

(** The entry [bu] of the store is one of the uploads [ups] of [bucket]. *)
Definition among (bucket : string) (ups : list s3.MultipartUpload)
    (bu : string * s3.MultipartUpload) : bool :=
  existsb (fun u => is_upload bucket (s3.Key u) (s3.UploadId u) bu) ups.

(** What a listing of the bucket has to show. *)
Definition listed (bucket : string) (w : Store) : list s3.MultipartUpload :=
  uploadsOf bucket (st_uploads w ++ st_ghosts w).

(** A store that answers every abort of an upload in progress, and whose
    listings show exactly the uploads in progress. *)
Definition consistent (w : Store) : Prop :=
  st_faults w = [] /\ st_ghosts w = [] /\ st_lagging w = false.

Definition sdk : SDK :=
  {| World := Store;
     Session := string;
     Config := string;
     Credentials := string;
     s3_ListBuckets := listBuckets;
     s3_ListMultipartUploads := listMultipartUploads;
     s3_AbortMultipartUpload := abortMultipartUpload;
     config_LoadDefaultConfig := loadDefaultConfig;
     Credentials_Retrieve := fun cfg w => (inr cfg, w);
     session_NewSessionWithOptions := fun p w => (inr (profileOf p), w);
     CreateAWSSessionWithCredentials := fun p creds w => (inr creds, w);
     ini_Load := fun path w => (st_ini w, w);
     os_Getenv := fun name w => if String.eqb name "HOME" then st_home w else "";
     filepath_Join := join;
     promptui_Run := run_prompt;
     cobra_ParseFlags := fun args => parseFlags args initFlags |}.

(** The program starts with its flags unset and nothing logged. *)
Definition start (w : Store) : State sdk :=
  Build_State sdk w initFlags [].

End Sim.

(* ================================================================= *)
(** ** The design the specification describes

    Two definitions written from the specification's words, to compare the
    program with: the Eligibility Classifier of section 4.2 for a policy
    that sets only the minimum age (rules (a) and (d)), and the Pagination
    Cursor of section 4.1. *)

Module Spec.

Inductive Decision : Type := Abort | Keep | SkipOwned.

Record Policy : Type := {
  minimumAge : Z
}.

Record UploadDescriptor : Type := {
  d_bucket : string;
  d_key : string;
  d_uploadId : string;
  d_initiated : Z
}.

(** Keep when the upload was initiated after [now - minimumAge]; an upload
    exactly at the threshold is eligible. *)
Definition classify (d : UploadDescriptor) (policy : Policy) (now : Z)
  : Decision :=
  if (now - minimumAge policy <? d_initiated d)%Z then Keep else Abort.

(** The descriptor of an upload the provider lists. *)
Definition describe (bucket : string) (u : s3.MultipartUpload)
  : option UploadDescriptor :=
  match s3.Key u, s3.UploadId u, s3.Initiated u with
  | Some k, Some i, Some t =>
      Some {| d_bucket := bucket; d_key := k; d_uploadId := i;
              d_initiated := t |}
  | _, _, _ => None
  end.

Section Cursor.

Context {P : SDK}.

(** Fetch pages from the given markers until the provider says the listing
    is not truncated; [fuel] bounds the number of pages. *)
Fixpoint listUploads (fuel : nat) (svc : S3 P) (bucket : string)
    (keyMarker idMarker : ptr string)
  : M P (error + list (ptr s3.MultipartUpload)) :=
  match fuel with
  | O => fun s => (OutOfFuel, s)
  | S fuel' =>
      let input := {| s3.lin_Bucket := Some bucket;
                      s3.lin_KeyMarker := keyMarker;
                      s3.lin_UploadIdMarker := idMarker |} in
      r <- call (EvListMultipartUploads svc input)
             (s3_ListMultipartUploads P svc input) ;;
      match r with
      | inl err => ret (inl err)
      | inr page =>
          match s3.IsTruncated page with
          | Some true =>
              r <- listUploads fuel' svc bucket (s3.NextKeyMarker page)
                     (s3.NextUploadIdMarker page) ;;
              match r with
              | inl err => ret (inl err)
              | inr more => ret (inr (s3.Uploads page ++ more)%list)
              end
          | _ => ret (inr (s3.Uploads page))
          end
      end
  end.

End Cursor.

End Spec.

(* ================================================================= *)
(** ** Reading a log *)

Section Logs.

Context {P : SDK}.
Local Open Scope list_scope.

(** The abort requests of a log, in order. *)
Fixpoint aborts (tr : list (Event P)) : list s3.AbortMultipartUploadInput :=
  match tr with
  | [] => []
  | EvAbortMultipartUpload _ input :: rest => input :: aborts rest
  | _ :: rest => aborts rest
  end.

(** The listing requests of a log, in order. *)
Fixpoint listings (tr : list (Event P)) : list s3.ListMultipartUploadsInput :=
  match tr with
  | [] => []
  | EvListMultipartUploads _ input :: rest => input :: listings rest
  | _ :: rest => listings rest
  end.

(** The state after a call into the world was logged and answered. *)
Definition after (s : State P) (e : Event P) (w : World P) : State P :=
  {| world := w; flags := flags s; trace := trace s ++ [e] |}.

(** A computation started in [s] leaves the flags alone and adds to the log
    only events that satisfy [Q]. *)
Definition emits {A : Type} (Q : Event P -> Prop) (c : M P A) (s : State P)
  : Prop :=
  flags (snd (c s)) = flags s /\
  exists evs, trace (snd (c s)) = trace s ++ evs /\ Forall Q evs.

(** The name a bucket entry carries, [None] when the entry or its name is
    [nil]. *)
Definition bucket_name (b : ptr s3.Bucket) : ptr string :=
  match b with
  | Some b' => s3.Name b'
  | None => None
  end.

(** What the log of the first menu entry may hold when the flag variable
    is [pf] and the user picked [profile]: configuration and credentials are
    loaded for [pf] (the default profile when [pf] is empty) and the session
    is created for [pf]; only the connection that lists the buckets to
    choose from is opened for [profile]; every upload listing and abort goes
    through a session that [CreateAWSSessionWithCredentials] returned for
    [pf]. *)
Definition menu_bucket_event (pf profile : string) (e : Event P) : Prop :=
  match e with
  | EvLoadDefaultConfig p =>
      p = if String.eqb pf "" then "default"%string else pf
  | EvCreateSession p _ => p = pf
  | EvNewSession p => p = profile
  | EvListBuckets svc =>
      exists w w',
        session_NewSessionWithOptions P profile w = (inr (s3.svc_sess svc), w')
  | EvListMultipartUploads svc _ | EvAbortMultipartUpload svc _ =>
      exists creds w w',
        CreateAWSSessionWithCredentials P pf creds w
        = (inr (s3.svc_sess svc), w')
  | _ => True
  end.

(** The log entries of the abort requests for a list of uploads. *)
Definition abortEvents (s3Svc : S3 P) (bucketName : string)
    (ups : list s3.MultipartUpload) : list (Event P) :=
  map (fun u => EvAbortMultipartUpload s3Svc (abortInput bucketName u)) ups.

(** The error the loop returns when the abort of upload [id] fails. *)
Definition abortFailure (id key : string) (err : error) : error :=
  Errorf ("error aborting multipart upload " ++ id ++ " for key " ++ key
          ++ ": " ++ Error err).

(** The error the function returns when the listing fails. *)
Definition listFailure (bucketName : string) (err : error) : error :=
  Errorf ("error listing multipart uploads for bucket " ++ bucketName
          ++ ": " ++ Error err).

(** The error [AbortFailedMultipartUploadsInAllBuckets] returns when bucket
    [name] fails. *)
Definition bucketFailure (name : string) (err : error) : error :=
  Errorf ("error aborting multipart uploads in bucket " ++ name ++ ": "
          ++ Error err).

(** An event that is neither a listing of uploads nor an abort. *)
Definition no_upload_call (e : Event P) : Prop :=
  match e with
  | EvListMultipartUploads _ _ | EvAbortMultipartUpload _ _ => False
  | _ => True
  end.

(** An event that is an abort request. *)
Definition abort_call (e : Event P) : Prop :=
  match e with
  | EvAbortMultipartUpload _ _ => True
  | _ => False
  end.

End Logs.

(* ================================================================= *)
(** ** Words for the statements about the rest of the program *)

(** The profile [ReadAWSConfigFile] makes of a section of the ini file. *)
Definition profileOfSection (section : IniSection) : ProfileConfig :=
  {| pc_Name := sec_Name section;
     pc_Region := sec_Key (sec_Keys section) "region" |}.

(** The profile whose configuration is loaded for a profile name. *)
Definition loadedProfile (profile : string) : string :=
  if String.eqb profile "" then "default" else profile.

(** The names carried by the entries of a ListBuckets response. *)
Fixpoint bucketNamesOf (buckets : list (ptr s3.Bucket)) : list string :=
  match buckets with
  | [] => []
  | Some {| s3.Name := Some name |} :: rest => name :: bucketNamesOf rest
  | _ :: rest => bucketNamesOf rest
  end.

Section Statements.

Context {P : SDK}.
Local Open Scope list_scope.

(** The file [ReadAWSConfigFile] reads. *)
Definition awsConfigPath (w : World P) : string :=
  filepath_Join P [os_Getenv P "HOME" w; ".aws"%string; "config"%string].

(** A computation started in [s] adds to the log only events that satisfy
    [Q] (it may assign the flags). *)
Definition logs {A : Type} (Q : Event P -> Prop) (c : M P A) (s : State P)
  : Prop :=
  exists evs, trace (snd (c s)) = trace s ++ evs /\ Forall Q evs.

(** A computation started in [s] does not end the process. *)
Definition never_exits {A : Type} (c : M P A) (s : State P) : Prop :=
  forall code, fst (c s) <> Exit code.

(** What the log of [discover] may hold when it works for profile [pf]:
    configuration, credentials, session and the connection that lists the
    buckets are all for [pf], and no upload is listed or aborted. *)
Definition discover_event (pf : string) (e : Event P) : Prop :=
  match e with
  | EvLoadDefaultConfig p => p = loadedProfile pf
  | EvCreateSession p _ => p = pf
  | EvNewSession p => p = pf
  | EvListMultipartUploads _ _ | EvAbortMultipartUpload _ _ => False
  | _ => True
  end.

(** The requests for uploads that a run over the buckets [names] may send:
    a listing of one of them from its start, or an abort in one of them. *)
Definition bucket_request (names : list string) (e : Event P) : Prop :=
  match e with
  | EvListMultipartUploads _ input =>
      exists name, In name names /\ input = listInput name
  | EvAbortMultipartUpload _ input =>
      exists name, In name names /\ s3.ain_Bucket input = Some name
  | _ => False
  end.

(** The messages with which the menu ends. *)
Definition menu_exit_text (text : string) : Prop :=
  (exists err, text = ("Prompt failed " ++ Error err ++ LF)%string)
  \/ text = ("Exiting..." ++ LF)%string
  \/ (exists pf err,
        text = ("Error fetching credentials for profile " ++ pf ++ ": "
                ++ Error err ++ LF)%string)
  \/ (exists err,
        text = ("Error creating session: " ++ Error err ++ LF)%string).

(** When the computation, started in [s], asks the menu to return, the last
    thing it logged is one of those messages. *)
Definition announced (c : M P ctl) (s : State P) : Prop :=
  forall s', c s = (Ret Return, s') ->
  exists pre text, trace s' = pre ++ [Stdout text] /\ menu_exit_text text.

End Statements.

(* ================================================================= *)
(** ** Concrete stores and command lines *)

Module Examples.

Import Sim.

Definition hour : Z := 3600.

(** The time of the run, in seconds. *)
Definition now : Z := 1700000000.

Definition upload (key id : string) (initiated : Z) : s3.MultipartUpload :=
  {| s3.Key := Some key; s3.UploadId := Some id;
     s3.Initiated := Some initiated |}.

Definition bucket (name : string) : ptr s3.Bucket :=
  Some {| s3.Name := Some name; s3.CreationDate := Some 0%Z |}.

(** Two profiles: [default] sees four buckets, [prod] sees one. *)
Definition store (uploads ghosts : list (string * s3.MultipartUpload))
    (lagging : bool) (denied : list string) (maxUploads : nat)
    (faults : list (string * error)) (answers : list string) : Store :=
  {| st_home := "/home/ops";
     st_ini := inr [ {| sec_Name := "default";
                        sec_Keys := [("region", "ap-southeast-2")] |};
                     {| sec_Name := "prod"; sec_Keys := [] |} ];
     st_buckets := [ ("default", [bucket "a"; bucket "b"; bucket "c";
                                  bucket "d"]);
                     ("prod", [bucket "p"]) ];
     st_uploads := uploads;
     st_ghosts := ghosts;
     st_lagging := lagging;
     st_denied := denied;
     st_maxUploads := maxUploads;
     st_faults := faults;
     st_answers := answers |}.

(** The client the two abort functions build from a session. *)
Definition svc (sess : string) : S3 sdk := s3.New sess None.

(** Scenario A: one upload initiated 23 hours ago, one exactly 24. *)
Definition upload23h : s3.MultipartUpload :=
  upload "logs/x.bin" "id-23h" (now - 23 * hour).
Definition upload24h : s3.MultipartUpload :=
  upload "logs/y.bin" "id-24h" (now - 24 * hour).
Definition policy24h : Spec.Policy := {| Spec.minimumAge := 24 * hour |}.
Definition storeA : Store :=
  store [("a", upload23h); ("a", upload24h)] [] false [] 1000 [] [].

Definition up1 : s3.MultipartUpload := upload "k1" "id-1" 0.
Definition up2 : s3.MultipartUpload := upload "k2" "id-2" 0.
Definition up3 : s3.MultipartUpload := upload "k3" "id-3" 0.
Definition up4 : s3.MultipartUpload := upload "k4" "id-4" 0.

(** Scenario D: the listing of bucket [a] is denied; [b], [c] and [d] each
    hold one upload. *)
Definition storeD : Store :=
  store [("b", up2); ("c", up3); ("d", up4)] [] false ["a"] 1000 [] [].

(** The same buckets with nothing denied. *)
Definition storeOK : Store :=
  store [("a", up1); ("b", up2); ("c", up3); ("d", up4)] [] false [] 1000
    [] [].

(** Two uploads in bucket [a], served one per page. *)
Definition storePaged : Store :=
  store [("a", up1); ("a", up2)] [] false [] 1 [] [].

(** Scenario B: [up1] is still listed but another process has ended it. *)
Definition storeGone : Store :=
  store [("a", up2)] [("a", up1)] false [] 1000 [] [].

(** Aborting [up1] is refused. *)
Definition accessDenied : error := LibErr "AccessDenied" "Access Denied".
Definition storeRefused : Store :=
  store [("a", up1); ("a", up2)] [] false [] 1000 [("id-1", accessDenied)] [].

(** A store whose listings lag behind its aborts. *)
Definition storeLagging : Store :=
  store [("a", up1)] [] true [] 1000 [] [].

(** The user picks profile [prod] and its bucket [p], which holds [up1]. *)
Definition storeMenu : Store :=
  store [("p", up1)] [] false [] 1000 [] ["prod"; "p"].

(** A bucket entry without a name among the buckets of [default]. *)
Definition storeNoName : Store :=
  {| st_home := "/home/ops"; st_ini := inl (LibErr "ini" "no file");
     st_buckets := [ ("default",
                      [bucket "a";
                       Some {| s3.Name := None; s3.CreationDate := None |};
                       bucket "c"]) ];
     st_uploads := []; st_ghosts := []; st_lagging := false;
     st_denied := []; st_maxUploads := 1000; st_faults := [];
     st_answers := [] |}.

Definition argsProfileFirst : list string :=
  ["s3_mp_janitor"; "--profile"; "prod"; "--discover"].
Definition argsShortProfileFirst : list string :=
  ["s3_mp_janitor"; "-p"; "prod"; "-d"].
Definition argsDiscoverFirst : list string :=
  ["s3_mp_janitor"; "--discover"; "--profile"; "prod"].

End Examples.

(* ================================================================= *)
(** ** Laws of the monad and of the log *)

Section Laws.

Context {P : SDK}.
Local Open Scope list_scope.

Lemma aborts_app (t1 t2 : list (Event P)) :
  aborts (t1 ++ t2) = aborts t1 ++ aborts t2.
Proof.
  induction t1 as [|e t1 IH]; simpl; [reflexivity|].
  destruct e; simpl; rewrite ?IH; reflexivity.
Qed.

Lemma listings_app (t1 t2 : list (Event P)) :
  listings (t1 ++ t2) = listings t1 ++ listings t2.
Proof.
  induction t1 as [|e t1 IH]; simpl; [reflexivity|].
  destruct e; simpl; rewrite ?IH; reflexivity.
Qed.

Lemma call_eq {A : Type} (e : Event P) (op : World P -> A * World P)
    (s : State P) (a : A) (w : World P) :
  op (world s) = (a, w) -> call e op s = (Ret a, after s e w).
Proof. intros H. unfold call. rewrite H. reflexivity. Qed.

Lemma bind_call {A B : Type} (e : Event P) (op : World P -> A * World P)
    (k : A -> M P B) (s : State P) (a : A) (w : World P) :
  op (world s) = (a, w) -> bind (call e op) k s = k a (after s e w).
Proof. intros H. unfold bind. rewrite (call_eq e op s a w H). reflexivity. Qed.

Lemma bind_Ret {A B : Type} (c : M P A) (k : A -> M P B) (s s' : State P)
    (a : A) :
  c s = (Ret a, s') -> bind c k s = k a s'.
Proof. intros H. unfold bind. rewrite H. reflexivity. Qed.

Lemma emits_ret {A : Type} (Q : Event P -> Prop) (a : A) (s : State P) :
  emits Q (ret a) s.
Proof.
  split; [reflexivity|]. exists []. simpl. rewrite app_nil_r. auto.
Qed.

Lemma emits_panic {A : Type} (Q : Event P -> Prop) (s : State P) :
  emits Q (@panic P A) s.
Proof.
  split; [reflexivity|]. exists []. simpl. rewrite app_nil_r. auto.
Qed.

Lemma emits_bind {A B : Type} (Q : Event P -> Prop) (c : M P A)
    (k : A -> M P B) (s : State P) :
  emits Q c s ->
  (forall a s', c s = (Ret a, s') -> emits Q (k a) s') ->
  emits Q (bind c k) s.
Proof.
  intros [Hf [evs [Ht HQ]]] Hk. unfold emits, bind in *.
  destruct (c s) as [[a| | |] s'] eqn:E; simpl in *;
    try (split; [assumption | exists evs; auto]).
  destruct (Hk a s' eq_refl) as [Hf' [evs' [Ht' HQ']]].
  split; [congruence|].
  exists (evs ++ evs'). rewrite Ht', Ht, app_assoc. split; [reflexivity|].
  apply Forall_app; auto.
Qed.

Lemma emits_call {A B : Type} (Q : Event P -> Prop) (e : Event P)
    (op : World P -> A * World P) (k : A -> M P B) (s : State P) :
  Q e ->
  (forall a w, op (world s) = (a, w) -> emits Q (k a) (after s e w)) ->
  emits Q (bind (call e op) k) s.
Proof.
  intros He Hk. destruct (op (world s)) as [a w] eqn:E.
  apply emits_bind.
  - unfold emits. rewrite (call_eq e op s a w E). simpl.
    split; [reflexivity|]. exists [e]. auto.
  - intros a' s' H. rewrite (call_eq e op s a w E) in H.
    inversion H; subst. apply Hk. reflexivity.
Qed.

Lemma emits_fmt_Print (Q : Event P -> Prop) (text : string) (s : State P) :
  Q (Stdout text) -> emits Q (fmt_Print text) s.
Proof.
  intros H. split; [reflexivity|]. exists [Stdout text]. simpl. auto.
Qed.

Lemma emits_getFlags {B : Type} (Q : Event P -> Prop) (k : Flags -> M P B)
    (s : State P) :
  emits Q (k (flags s)) s -> emits Q (bind getFlags k) s.
Proof. intros H. exact H. Qed.

Lemma emits_weaken {A : Type} (Q Q' : Event P -> Prop) (c : M P A)
    (s : State P) :
  (forall e, Q e -> Q' e) -> emits Q c s -> emits Q' c s.
Proof.
  intros HQ [Hf [evs [Ht H]]]. split; [assumption|].
  exists evs. split; [assumption|]. eapply Forall_impl; eauto.
Qed.

End Laws.

(* ================================================================= *)
(** ** ListS3Buckets *)

Section ListS3BucketsFacts.

Context {P : SDK}.
Local Open Scope list_scope.

Lemma set_index_app {A : Type} (pre : list A) (x v : A) (t : list A) :
  set_index (pre ++ x :: t) (length pre) v = pre ++ v :: t.
Proof.
  induction pre as [|h pre IH]; simpl; [reflexivity|].
  rewrite IH. reflexivity.
Qed.

Lemma named_buckets (bs : list (ptr s3.Bucket)) :
  Forall (fun b => bucket_name b <> None) bs ->
  exists names, map Some names = map bucket_name bs.
Proof.
  induction 1 as [|b bs Hb _ [names IH]].
  - exists []. reflexivity.
  - destruct (bucket_name b) as [n|] eqn:E; [|congruence].
    exists (n :: names). simpl. rewrite IH, E. reflexivity.
Qed.

(** The loop fills the slice from index [length pre] on with the names, in
    the order of the response, and touches nothing outside the program. *)
Lemma ListS3Buckets_loop_names (bs : list (ptr s3.Bucket)) :
  forall (names pre : list string) (s : State P),
    map Some names = map bucket_name bs ->
    ListS3Buckets_loop bs (length pre) (pre ++ repeat "" (length bs)) s
    = (Ret (pre ++ names), s).
Proof.
  induction bs as [|b bs IH]; intros names pre s H.
  - destruct names; [|discriminate]. reflexivity.
  - destruct names as [|n names]; [discriminate|].
    simpl in H. inversion H as [[Hn Hrest]].
    destruct b as [b'|]; [|discriminate].
    simpl in Hn. simpl ListS3Buckets_loop. unfold bind at 1. simpl.
    unfold bind at 1. rewrite <- Hn. simpl.
    rewrite set_index_app.
    replace (pre ++ n :: repeat "" (length bs))
      with ((pre ++ [n]) ++ repeat "" (length bs))
      by (rewrite <- app_assoc; reflexivity).
    replace (S (length pre)) with (length (pre ++ [n]))
      by (rewrite length_app; simpl; lia).
    rewrite (IH names (pre ++ [n]) s Hrest).
    rewrite <- app_assoc. reflexivity.
Qed.

(** An entry without a name stops the loop with a panic. *)
Lemma ListS3Buckets_loop_panics (bs : list (ptr s3.Bucket)) :
  forall (i : nat) (acc : list string) (s : State P),
    Exists (fun b => bucket_name b = None) bs ->
    fst (ListS3Buckets_loop bs i acc s) = Panic.
Proof.
  induction bs as [|b bs IH]; intros i acc s H.
  - inversion H.
  - simpl. destruct b as [b'|]; [|reflexivity].
    unfold bind at 1. simpl. unfold bind at 1.
    destruct (s3.Name b') as [n|] eqn:E; simpl; [|reflexivity].
    apply IH. inversion H as [? ? Hb|? ? Hbs]; subst; [|assumption].
    simpl in Hb. congruence.
Qed.

(** C10. When the provider's ListBuckets response names every bucket,
    [ListS3Buckets] returns (with a nil error, after that one call) a slice
    of the same length that holds exactly the bucket names in the order of
    the response; when some entry of the response has a nil name (or is
    nil), dereferencing it panics. *)
Theorem C10_ListS3Buckets_names (sess : Session P) (s : State P)
    (out : s3.ListBucketsOutput) (w : World P) :
  s3_ListBuckets P (s3.New sess (Some "ap-southeast-2")) (world s)
  = (inr out, w) ->
  (Forall (fun b => bucket_name b <> None) (s3.Buckets out) ->
   exists names,
     ListS3Buckets sess s
     = (Ret (inr names),
        after s (EvListBuckets (s3.New sess (Some "ap-southeast-2"))) w)
     /\ map Some names = map bucket_name (s3.Buckets out)
     /\ length names = length (s3.Buckets out))
  /\ (Exists (fun b => bucket_name b = None) (s3.Buckets out) ->
      fst (ListS3Buckets sess s) = Panic).
Proof.
  intros Hcall. split.
  - intros Hall. destruct (named_buckets _ Hall) as [names Hn].
    exists names. split; [|split].
    + unfold ListS3Buckets. rewrite (bind_call _ _ _ _ _ _ Hcall).
      unfold bind.
      rewrite (ListS3Buckets_loop_names (s3.Buckets out) names [] _ Hn).
      reflexivity.
    + assumption.
    + rewrite <- (length_map Some names), Hn, length_map. reflexivity.
  - intros Hex. unfold ListS3Buckets. rewrite (bind_call _ _ _ _ _ _ Hcall).
    unfold bind.
    pose proof (ListS3Buckets_loop_panics (s3.Buckets out) 0
                  (repeat "" (length (s3.Buckets out)))
                  (after s (EvListBuckets (s3.New sess (Some "ap-southeast-2"))) w)
                  Hex) as Hp.
    destruct (ListS3Buckets_loop _ _ _ _) as [[a| | |] s']; simpl in Hp;
      try discriminate. reflexivity.
Qed.

End ListS3BucketsFacts.

(** C10 on the store: the four buckets of [default] come back by name, and
    the response with a nameless entry makes the function panic. *)
Lemma C10_witness :
  (exists names,
     ListS3Buckets (P := Sim.sdk) "default" (Sim.start Examples.storeOK)
     = (Ret (inr names),
        after (Sim.start Examples.storeOK)
          (EvListBuckets (P := Sim.sdk)
             (s3.New "default" (Some "ap-southeast-2")))
          Examples.storeOK)
     /\ map Some names = [Some "a"; Some "b"; Some "c"; Some "d"]
     /\ length names = 4%nat)
  /\ fst (ListS3Buckets (P := Sim.sdk) "default"
            (Sim.start Examples.storeNoName)) = Panic.
Proof.
  split.
  - apply (C10_ListS3Buckets_names (P := Sim.sdk) "default"
             (Sim.start Examples.storeOK)
             {| s3.Buckets := [Examples.bucket "a"; Examples.bucket "b";
                               Examples.bucket "c"; Examples.bucket "d"] |}
             Examples.storeOK eq_refl).
    repeat constructor; discriminate.
  - apply (C10_ListS3Buckets_names (P := Sim.sdk) "default"
             (Sim.start Examples.storeNoName)
             {| s3.Buckets :=
                  [Examples.bucket "a";
                   Some {| s3.Name := None; s3.CreationDate := None |};
                   Examples.bucket "c"] |}
             Examples.storeNoName eq_refl).
    apply Exists_cons_tl. apply Exists_cons_hd. reflexivity.
Defined.

(* ================================================================= *)
(** ** The guard of main *)

Section MainFacts.

Context {P : SDK}.
Local Open Scope list_scope.

(** C8. When the first command-line argument is exactly [--profile] or
    [-p], [main] prints the message that the flag cannot be used alone and
    returns: the world and the flags are untouched and nothing else is
    logged, so no command runs, whatever follows on the command line.  A
    command line that starts with [--discover] followed by [--profile] is
    not stopped by the guard: [main] goes on to execute the command. *)
Theorem C8_profile_first_is_rejected (fuel : nat) (args : list string)
    (s : State P) :
  (nth_error args 1 = Some "--profile"%string
   \/ nth_error args 1 = Some "-p"%string ->
   main fuel args s
   = (Ret tt, {| world := world s; flags := flags s;
                 trace := trace s ++ [Stdout guardMessage] |}))
  /\ (forall (prog : string) (rest : list string),
        main fuel (prog :: "--discover" :: "--profile" :: rest)%string s
        = main_execute fuel
            (prog :: "--discover" :: "--profile" :: rest)%string s).
Proof.
  split.
  - intros H. destruct args as [|a0 [|a1 rest]];
      try (destruct H as [H|H]; discriminate).
    simpl in H. unfold main. simpl.
    destruct H as [H|H]; inversion H; subst; reflexivity.
  - intros prog rest. reflexivity.
Qed.

End MainFacts.

(** C8 on the store: [--profile prod --discover] and [-p prod -d] are both
    answered with the message alone. *)
Lemma C8_witness :
  main (P := Sim.sdk) 3 Examples.argsProfileFirst
    (Sim.start Examples.storeMenu)
  = (Ret tt, Build_State Sim.sdk Examples.storeMenu initFlags
               [Stdout guardMessage])
  /\ main (P := Sim.sdk) 3 Examples.argsShortProfileFirst
       (Sim.start Examples.storeMenu)
     = (Ret tt, Build_State Sim.sdk Examples.storeMenu initFlags
                  [Stdout guardMessage]).
Proof.
  split.
  - apply (proj1 (C8_profile_first_is_rejected (P := Sim.sdk) 3
                    Examples.argsProfileFirst
                    (Sim.start Examples.storeMenu))).
    left. reflexivity.
  - apply (proj1 (C8_profile_first_is_rejected (P := Sim.sdk) 3
                    Examples.argsShortProfileFirst
                    (Sim.start Examples.storeMenu))).
    right. reflexivity.
Defined.

(* ================================================================= *)
(** ** The abort loop of one bucket *)

Section BucketFacts.

Context {P : SDK}.
Local Open Scope list_scope.

Lemma aborts_abortEvents (s3Svc : S3 P) (b : string)
    (ups : list s3.MultipartUpload) :
  aborts (abortEvents s3Svc b ups) = map (abortInput b) ups.
Proof.
  induction ups as [|u ups IH]; simpl; [reflexivity|].
  rewrite IH. reflexivity.
Qed.

Lemma listings_abortEvents (s3Svc : S3 P) (b : string)
    (ups : list s3.MultipartUpload) :
  listings (abortEvents s3Svc b ups) = [].
Proof. induction ups as [|u ups IH]; simpl; auto. Qed.

(** One turn of the loop, by the answer to its abort request. *)
Lemma loop_cons (s3Svc : S3 P) (b : string) (u : s3.MultipartUpload)
    (rest : list (ptr s3.MultipartUpload)) (s : State P) :
  AbortFailedMultipartUploadsInBucket_loop s3Svc b (Some u :: rest) s
  = match s3_AbortMultipartUpload P s3Svc (abortInput b u) (world s) with
    | (inl err, w) =>
        (match s3.UploadId u, s3.Key u with
         | Some id, Some key => Ret (Some (abortFailure id key err))
         | _, _ => Panic
         end,
         after s (EvAbortMultipartUpload s3Svc (abortInput b u)) w)
    | (inr _, w) =>
        AbortFailedMultipartUploadsInBucket_loop s3Svc b rest
          (after s (EvAbortMultipartUpload s3Svc (abortInput b u)) w)
    end.
Proof.
  simpl. unfold bind at 1. simpl.
  destruct (s3_AbortMultipartUpload P s3Svc (abortInput b u) (world s))
    as [[err|[]] w] eqn:E; rewrite (bind_call _ _ _ _ _ _ E);
    [|reflexivity].
  destruct (s3.UploadId u), (s3.Key u); reflexivity.
Qed.

(** One turn of the loop whose abort succeeds. *)
Lemma loop_step_ok (s3Svc : S3 P) (b : string) (u : s3.MultipartUpload)
    (rest : list (ptr s3.MultipartUpload)) (s : State P) (w : World P) :
  s3_AbortMultipartUpload P s3Svc (abortInput b u) (world s) = (inr tt, w) ->
  AbortFailedMultipartUploadsInBucket_loop s3Svc b (Some u :: rest) s
  = AbortFailedMultipartUploadsInBucket_loop s3Svc b rest
      (after s (EvAbortMultipartUpload s3Svc (abortInput b u)) w).
Proof. intros H. rewrite loop_cons, H. reflexivity. Qed.

(** One turn of the loop whose abort fails: the error is returned at once. *)
Lemma loop_step_err (s3Svc : S3 P) (b : string) (u : s3.MultipartUpload)
    (rest : list (ptr s3.MultipartUpload)) (s : State P) (w : World P)
    (err : error) (id key : string) :
  s3_AbortMultipartUpload P s3Svc (abortInput b u) (world s) = (inl err, w) ->
  s3.UploadId u = Some id ->
  s3.Key u = Some key ->
  AbortFailedMultipartUploadsInBucket_loop s3Svc b (Some u :: rest) s
  = (Ret (Some (abortFailure id key err)),
     after s (EvAbortMultipartUpload s3Svc (abortInput b u)) w).
Proof. intros H Hid Hkey. rewrite loop_cons, H, Hid, Hkey. reflexivity. Qed.

(** A prefix of the listing that was aborted without error is behind us. *)
Lemma loop_app (s3Svc : S3 P) (b : string)
    (pre rest : list (ptr s3.MultipartUpload)) :
  forall (s s1 : State P),
    AbortFailedMultipartUploadsInBucket_loop s3Svc b pre s = (Ret None, s1) ->
    AbortFailedMultipartUploadsInBucket_loop s3Svc b (pre ++ rest) s
    = AbortFailedMultipartUploadsInBucket_loop s3Svc b rest s1.
Proof.
  induction pre as [|u pre IH]; intros s s1 H.
  - inversion H. reflexivity.
  - destruct u as [u|]; [|discriminate].
    rewrite <- app_comm_cons. rewrite loop_cons in H |- *.
    destruct (s3_AbortMultipartUpload P s3Svc (abortInput b u) (world s))
      as [[err|[]] w] eqn:E.
    + destruct (s3.UploadId u), (s3.Key u); discriminate.
    + apply IH. assumption.
Qed.

(** What any run of the loop has done: it has sent the abort requests of
    the first [k] uploads, one each and in order, and nothing else; [k] is
    the whole listing when it returns nil, and the failing upload is the
    [k]-th when it returns an error. *)
Lemma loop_prefix (s3Svc : S3 P) (b : string) (ups : list s3.MultipartUpload) :
  forall (s : State P),
  exists k,
    (k <= length ups)%nat
    /\ trace (snd (AbortFailedMultipartUploadsInBucket_loop s3Svc b
                     (map Some ups) s))
       = trace s ++ abortEvents s3Svc b (firstn k ups)
    /\ flags (snd (AbortFailedMultipartUploadsInBucket_loop s3Svc b
                     (map Some ups) s)) = flags s
    /\ (fst (AbortFailedMultipartUploadsInBucket_loop s3Svc b
               (map Some ups) s) = Ret None -> k = length ups)
    /\ (forall e,
          fst (AbortFailedMultipartUploadsInBucket_loop s3Svc b
                 (map Some ups) s) = Ret (Some e) ->
          exists u id key err,
            nth_error ups (pred k) = Some u /\ (0 < k)%nat
            /\ s3.UploadId u = Some id /\ s3.Key u = Some key
            /\ e = abortFailure id key err)
    /\ (forall code,
          fst (AbortFailedMultipartUploadsInBucket_loop s3Svc b
                 (map Some ups) s) <> Exit code)
    /\ fst (AbortFailedMultipartUploadsInBucket_loop s3Svc b
              (map Some ups) s) <> OutOfFuel.
Proof.
  induction ups as [|u ups IH]; intros s.
  - exists 0%nat. simpl. rewrite app_nil_r.
    repeat split; auto; try discriminate.
  - simpl map. rewrite loop_cons.
    destruct (s3_AbortMultipartUpload P s3Svc (abortInput b u) (world s))
      as [[err|[]] w] eqn:E.
    + exists 1%nat.
      destruct (s3.UploadId u) as [id|] eqn:Hid;
        destruct (s3.Key u) as [key|] eqn:Hkey; simpl;
        repeat split; auto; try discriminate; try lia.
      intros e He. inversion He; subst.
      exists u, id, key, err. repeat split; auto.
    + destruct (IH (after s (EvAbortMultipartUpload s3Svc (abortInput b u)) w))
        as [k [Hk [Ht [Hf [Hnil [Herr [Hexit Hfuel]]]]]]].
      exists (S k). simpl. repeat split; auto.
      * lia.
      * rewrite Ht. simpl. rewrite <- app_assoc. reflexivity.
      * intros e He. destruct (Herr e He) as [u' [id [key [err [Hn [Hpos R]]]]]].
        exists u', id, key, err. repeat split; try tauto; try lia.
        destruct k; [lia|]. simpl in *. tauto.
Qed.

(** The function is its one listing request followed by the loop over the
    page that request returned. *)
Lemma bucket_unfold (sess : Session P) (b : string) (s : State P)
    (out : s3.ListMultipartUploadsOutput) (w : World P) :
  s3_ListMultipartUploads P (s3.New sess None) (listInput b) (world s)
  = (inr out, w) ->
  AbortFailedMultipartUploadsInBucket sess b s
  = AbortFailedMultipartUploadsInBucket_loop (s3.New sess None) b
      (s3.Uploads out)
      (after s (EvListMultipartUploads (s3.New sess None) (listInput b)) w).
Proof.
  intros H. unfold AbortFailedMultipartUploadsInBucket.
  rewrite (bind_call _ _ _ _ _ _ H). reflexivity.
Qed.

(** A failed listing ends the function with the wrapped error. *)
Lemma bucket_list_err (sess : Session P) (b : string) (s : State P)
    (err : error) (w : World P) :
  s3_ListMultipartUploads P (s3.New sess None) (listInput b) (world s)
  = (inl err, w) ->
  AbortFailedMultipartUploadsInBucket sess b s
  = (Ret (Some (listFailure b err)),
     after s (EvListMultipartUploads (s3.New sess None) (listInput b)) w).
Proof.
  intros H. unfold AbortFailedMultipartUploadsInBucket.
  rewrite (bind_call _ _ _ _ _ _ H). reflexivity.
Qed.

End BucketFacts.

(* ================================================================= *)
(** ** No classification: every listed upload is aborted *)

(** C1, as the specification states it, fails on the program.  The
    classifier keeps the upload initiated 23 hours ago under a 24 hour
    policy, yet the run over its bucket returns nil having sent an abort
    request for it (and for the one initiated exactly 24 hours ago), and
    both uploads are gone from the store. *)
Lemma C1_counterexample :
  option_map (fun d => Spec.classify d Examples.policy24h Examples.now)
    (Spec.describe "a" Examples.upload23h) = Some Spec.Keep
  /\ fst (AbortFailedMultipartUploadsInBucket (P := Sim.sdk) "default" "a"
            (Sim.start Examples.storeA)) = Ret None
  /\ aborts (trace (snd (AbortFailedMultipartUploadsInBucket (P := Sim.sdk)
                           "default" "a" (Sim.start Examples.storeA))))
     = [abortInput "a" Examples.upload23h; abortInput "a" Examples.upload24h]
  /\ Sim.st_uploads
       (world (snd (AbortFailedMultipartUploadsInBucket (P := Sim.sdk)
                      "default" "a" (Sim.start Examples.storeA)))) = [].
Proof. vm_compute. repeat split; reflexivity. Qed.

Section NoPolicy.

Context {P : SDK}.
Local Open Scope list_scope.

(** C1, amended.  [AbortFailedMultipartUploadsInBucket] takes no policy and
    reads no timestamp.  When the listing succeeds and the function returns
    nil, what it has done is the listing request followed by one abort
    request per upload of the page, in listing order; the request built for
    an upload does not depend on its initiation time, so an upload that the
    classifier would keep (newer than the threshold) is aborted like one
    that is exactly at the threshold or older. *)
Theorem C1_every_listed_upload_is_aborted (sess : Session P) (b : string)
    (s s' : State P) (out : s3.ListMultipartUploadsOutput) (w : World P)
    (ups : list s3.MultipartUpload) :
  s3_ListMultipartUploads P (s3.New sess None) (listInput b) (world s)
  = (inr out, w) ->
  s3.Uploads out = map Some ups ->
  AbortFailedMultipartUploadsInBucket sess b s = (Ret None, s') ->
  trace s'
  = trace s
    ++ EvListMultipartUploads (s3.New sess None) (listInput b)
       :: abortEvents (s3.New sess None) b ups
  /\ (forall u d policy now,
        In u ups ->
        Spec.describe b u = Some d ->
        Spec.classify d policy now = Spec.Keep ->
        In (abortInput b u) (aborts (trace s')))
  /\ (forall u t,
        abortInput b {| s3.Key := s3.Key u; s3.UploadId := s3.UploadId u;
                        s3.Initiated := t |}
        = abortInput b u).
Proof.
  intros Hlist Hups Hrun.
  rewrite (bucket_unfold sess b s out w Hlist), Hups in Hrun.
  destruct (loop_prefix (s3.New sess None) b ups
              (after s (EvListMultipartUploads (s3.New sess None)
                          (listInput b)) w))
    as [k [_ [Ht [_ [Hnil _]]]]].
  rewrite Hrun in Ht, Hnil. simpl in Ht, Hnil.
  rewrite (Hnil eq_refl), firstn_all in Ht.
  assert (Htr : trace s'
                = trace s
                  ++ EvListMultipartUploads (s3.New sess None) (listInput b)
                     :: abortEvents (s3.New sess None) b ups).
  { rewrite Ht, <- app_assoc. reflexivity. }
  split; [exact Htr|]. split.
  - intros u d policy now Hin _ _. rewrite Htr, aborts_app. simpl.
    rewrite aborts_abortEvents. apply in_or_app. right.
    apply in_map. assumption.
  - intros u t. reflexivity.
Qed.

End NoPolicy.

(** C1 on the store of scenario A: both uploads are aborted. *)
Lemma C1_witness :
  trace (snd (AbortFailedMultipartUploadsInBucket (P := Sim.sdk) "default" "a"
                (Sim.start Examples.storeA)))
  = [EvListMultipartUploads (Examples.svc "default") (listInput "a");
     EvAbortMultipartUpload (Examples.svc "default")
       (abortInput "a" Examples.upload23h);
     EvAbortMultipartUpload (Examples.svc "default")
       (abortInput "a" Examples.upload24h)].
Proof.
  apply (C1_every_listed_upload_is_aborted (P := Sim.sdk) "default" "a"
           (Sim.start Examples.storeA)
           (snd (AbortFailedMultipartUploadsInBucket (P := Sim.sdk)
                   "default" "a" (Sim.start Examples.storeA)))
           {| s3.Uploads := [Some Examples.upload23h; Some Examples.upload24h];
              s3.IsTruncated := Some false;
              s3.NextKeyMarker := None;
              s3.NextUploadIdMarker := None |}
           Examples.storeA
           [Examples.upload23h; Examples.upload24h]);
    vm_compute; reflexivity.
Defined.

(* ================================================================= *)
(** ** The run over all buckets stops at the first failure *)

(** C2, as the specification states it, fails on the program.  With the
    listing of bucket [a] denied, the run over the four buckets of the
    profile returns the error for [a] after that single listing request:
    [b], [c] and [d] are never listed and their uploads stay in the store.
    (With nothing denied the same run lists all four buckets.) *)
Lemma C2_counterexample :
  fst (AbortFailedMultipartUploadsInAllBuckets (P := Sim.sdk) "default"
         (Sim.start Examples.storeD))
  = Ret (Some (Errorf ("error aborting multipart uploads in bucket a: "
                       ++ "error listing multipart uploads for bucket a: "
                       ++ "AccessDenied: Access Denied")))
  /\ listings (trace (snd (AbortFailedMultipartUploadsInAllBuckets
                             (P := Sim.sdk) "default"
                             (Sim.start Examples.storeD))))
     = [listInput "a"]
  /\ Sim.st_uploads
       (world (snd (AbortFailedMultipartUploadsInAllBuckets (P := Sim.sdk)
                      "default" (Sim.start Examples.storeD))))
     = [("b", Examples.up2); ("c", Examples.up3); ("d", Examples.up4)]
  /\ listings (trace (snd (AbortFailedMultipartUploadsInAllBuckets
                             (P := Sim.sdk) "default"
                             (Sim.start Examples.storeOK))))
     = [listInput "a"; listInput "b"; listInput "c"; listInput "d"].
Proof. vm_compute. repeat split; reflexivity. Qed.

Section AllBuckets.

Context {P : SDK}.
Local Open Scope list_scope.

(** Buckets processed without error are behind us. *)
Lemma all_loop_app (sess : Session P) (pre rest : list (ptr s3.Bucket)) :
  forall (s s1 : State P),
    AbortFailedMultipartUploadsInAllBuckets_loop sess pre s = (Ret None, s1) ->
    AbortFailedMultipartUploadsInAllBuckets_loop sess (pre ++ rest) s
    = AbortFailedMultipartUploadsInAllBuckets_loop sess rest s1.
Proof.
  induction pre as [|bk pre IH]; intros s s1 H.
  - inversion H. reflexivity.
  - rewrite <- app_comm_cons.
    destruct bk as [bk|]; [|discriminate].
    simpl in H |- *. unfold bind at 1 in H. unfold bind at 1.
    simpl in H |- *.
    destruct (s3.Name bk) as [name|]; [|discriminate].
    simpl in H |- *. unfold bind at 1 in H. unfold bind at 1.
    simpl in H |- *. unfold bind at 1 in H. unfold bind at 1.
    destruct (AbortFailedMultipartUploadsInBucket sess name s)
      as [[[e|]| | |] s2]; try discriminate.
    apply IH. assumption.
Qed.

(** C2, amended.  A failure in one bucket is not isolated.  The buckets are
    processed in the order of the ListBuckets response; when the buckets
    before [name] were processed without error and the processing of
    [name] returns an error (its listing or one of its aborts failed),
    [AbortFailedMultipartUploadsInAllBuckets] returns that error, wrapped
    with the bucket's name, in the state that bucket's processing ended in:
    no request is made for any bucket after it. *)
Theorem C2_first_failing_bucket_ends_the_run (sess : Session P)
    (s s1 s2 : State P) (out : s3.ListBucketsOutput) (w : World P)
    (pre post : list (ptr s3.Bucket)) (bk : s3.Bucket) (name : string)
    (err : error) :
  s3_ListBuckets P (s3.New sess None) (world s) = (inr out, w) ->
  s3.Buckets out = pre ++ Some bk :: post ->
  s3.Name bk = Some name ->
  AbortFailedMultipartUploadsInAllBuckets_loop sess pre
    (after s (EvListBuckets (s3.New sess None)) w) = (Ret None, s1) ->
  AbortFailedMultipartUploadsInBucket sess name s1 = (Ret (Some err), s2) ->
  AbortFailedMultipartUploadsInAllBuckets sess s
  = (Ret (Some (bucketFailure name err)), s2).
Proof.
  intros Hlist Hbs Hname Hpre Hb.
  unfold AbortFailedMultipartUploadsInAllBuckets. cbv zeta.
  rewrite (bind_call _ _ _ _ _ _ Hlist), Hbs.
  rewrite (all_loop_app sess pre _ _ s1 Hpre).
  simpl. unfold bind at 1. simpl. rewrite Hname. unfold bind at 1. simpl.
  unfold bind at 1. rewrite Hb. reflexivity.
Qed.

End AllBuckets.

(** C2 on a store where the listing of the second bucket, [b], is denied:
    [a] is processed, the run ends with the error for [b], and [c] and [d]
    are never listed and keep their uploads. *)
Lemma C2_witness :
  AbortFailedMultipartUploadsInAllBuckets (P := Sim.sdk) "default"
    (Sim.start (Examples.store
                  [("a", Examples.up1); ("c", Examples.up3);
                   ("d", Examples.up4)] [] false ["b"] 1000 [] []))
  = (Ret (Some (bucketFailure "b" (listFailure "b" Examples.accessDenied))),
     Build_State Sim.sdk
       (Examples.store [("c", Examples.up3); ("d", Examples.up4)] [] false
          ["b"] 1000 [] [])
       initFlags
       [EvListBuckets (Examples.svc "default");
        EvListMultipartUploads (Examples.svc "default") (listInput "a");
        EvAbortMultipartUpload (Examples.svc "default")
          (abortInput "a" Examples.up1);
        EvListMultipartUploads (Examples.svc "default") (listInput "b")]).
Proof.
  apply (C2_first_failing_bucket_ends_the_run (P := Sim.sdk) "default"
           (Sim.start (Examples.store
                         [("a", Examples.up1); ("c", Examples.up3);
                          ("d", Examples.up4)] [] false ["b"] 1000 [] []))
           (Build_State Sim.sdk
              (Examples.store [("c", Examples.up3); ("d", Examples.up4)] []
                 false ["b"] 1000 [] [])
              initFlags
              [EvListBuckets (Examples.svc "default");
               EvListMultipartUploads (Examples.svc "default") (listInput "a");
               EvAbortMultipartUpload (Examples.svc "default")
                 (abortInput "a" Examples.up1)])
           (Build_State Sim.sdk
              (Examples.store [("c", Examples.up3); ("d", Examples.up4)] []
                 false ["b"] 1000 [] [])
              initFlags
              [EvListBuckets (Examples.svc "default");
               EvListMultipartUploads (Examples.svc "default") (listInput "a");
               EvAbortMultipartUpload (Examples.svc "default")
                 (abortInput "a" Examples.up1);
               EvListMultipartUploads (Examples.svc "default")
                 (listInput "b")])
           {| s3.Buckets := [Examples.bucket "a"; Examples.bucket "b";
                             Examples.bucket "c"; Examples.bucket "d"] |}
           (Examples.store
              [("a", Examples.up1); ("c", Examples.up3); ("d", Examples.up4)]
              [] false ["b"] 1000 [] [])
           [Examples.bucket "a"] [Examples.bucket "c"; Examples.bucket "d"]
           {| s3.Name := Some "b"; s3.CreationDate := Some 0%Z |} "b"
           (listFailure "b" Examples.accessDenied));
    vm_compute; reflexivity.
Defined.

(* ================================================================= *)
(** ** No retry and no benign error *)

(** C4, as the specification states it, fails on the program.  In the store
    of scenario B the listing shows two uploads, one of which another
    process has already ended.  The abort of the upload in progress
    succeeds; the abort of the other is answered NoSuchUpload, and the
    function returns that as an error, not as a success. *)
Lemma C4_counterexample :
  AbortFailedMultipartUploadsInBucket (P := Sim.sdk) "default" "a"
    (Sim.start Examples.storeGone)
  = (Ret (Some (Errorf ("error aborting multipart upload id-1 for key k1: "
                        ++ "NoSuchUpload: The specified upload does not exist."))),
     Build_State Sim.sdk
       (Examples.store [] [("a", Examples.up1)] false [] 1000 [] [])
       initFlags
       [EvListMultipartUploads (Examples.svc "default") (listInput "a");
        EvAbortMultipartUpload (Examples.svc "default")
          (abortInput "a" Examples.up2);
        EvAbortMultipartUpload (Examples.svc "default")
          (abortInput "a" Examples.up1)]).
Proof. vm_compute. reflexivity. Qed.

Section NoRetry.

Context {P : SDK}.
Local Open Scope list_scope.

(** C4, amended.  Whatever error the client's AbortMultipartUpload call
    returns for an upload (not-found and access-denied alike), the loop
    returns it at once as the function's error, naming the upload: the
    function has made that one call for the upload, makes no other, and
    attempts no upload after it in the listing.  So not-found is a failure,
    not an already-gone success, and access-denied is surfaced as a
    failure.  (What the client does inside the call is the client's; the
    function sets no attempt count and adds no retry of its own.) *)
Theorem C4_abort_error_is_returned_at_once (s3Svc : S3 P) (b : string)
    (pre rest : list (ptr s3.MultipartUpload)) (u : s3.MultipartUpload)
    (s s1 : State P) (w : World P) (err : error) (id key : string) :
  AbortFailedMultipartUploadsInBucket_loop s3Svc b pre s = (Ret None, s1) ->
  s3_AbortMultipartUpload P s3Svc (abortInput b u) (world s1) = (inl err, w) ->
  s3.UploadId u = Some id ->
  s3.Key u = Some key ->
  AbortFailedMultipartUploadsInBucket_loop s3Svc b (pre ++ Some u :: rest) s
  = (Ret (Some (abortFailure id key err)),
     after s1 (EvAbortMultipartUpload s3Svc (abortInput b u)) w).
Proof.
  intros Hpre Hcall Hid Hkey.
  rewrite (loop_app s3Svc b pre _ s s1 Hpre).
  apply loop_step_err; assumption.
Qed.

End NoRetry.

(** C4 on the store where aborting [up1] is refused: the access-denied
    answer ends the loop after one request, and [up2] is not attempted. *)
Lemma C4_witness :
  AbortFailedMultipartUploadsInBucket_loop (P := Sim.sdk)
    (Examples.svc "default") "a" [Some Examples.up1; Some Examples.up2]
    (Sim.start Examples.storeRefused)
  = (Ret (Some (abortFailure "id-1" "k1" Examples.accessDenied)),
     after (Sim.start Examples.storeRefused)
       (EvAbortMultipartUpload (Examples.svc "default")
          (abortInput "a" Examples.up1))
       (Sim.with_faults Examples.storeRefused [])).
Proof.
  apply (C4_abort_error_is_returned_at_once (P := Sim.sdk)
           (Examples.svc "default") "a" [] [Some Examples.up2] Examples.up1
           (Sim.start Examples.storeRefused) (Sim.start Examples.storeRefused)
           (Sim.with_faults Examples.storeRefused []) Examples.accessDenied
           "id-1" "k1");
    reflexivity.
Defined.

(* ================================================================= *)
(** ** What each function adds to the log *)

Section EmitFacts.

Context {P : SDK}.
Local Open Scope list_scope.

Variable Q : Event P -> Prop.

Lemma emits_deref {A : Type} (p : ptr A) (s : State P) : emits Q (deref p) s.
Proof. destruct p; [apply emits_ret | apply emits_panic]. Qed.

Lemma emits_LoadAWSConfigForProfile (profile : string) (s : State P) :
  Q (EvLoadDefaultConfig
       (if String.eqb profile "" then "default"%string else profile)) ->
  emits Q (LoadAWSConfigForProfile profile) s.
Proof.
  intros H. unfold LoadAWSConfigForProfile. cbv zeta.
  apply emits_call; [assumption|].
  intros [err|cfg] w _; apply emits_ret.
Qed.

Lemma emits_GetCredentialsForProfile (profile : string) (s : State P) :
  Q (EvLoadDefaultConfig
       (if String.eqb profile "" then "default"%string else profile)) ->
  (forall cfg, Q (EvRetrieve cfg)) ->
  emits Q (GetCredentialsForProfile profile) s.
Proof.
  intros H1 H2. unfold GetCredentialsForProfile.
  apply emits_bind; [apply emits_LoadAWSConfigForProfile; assumption|].
  intros [err|cfg] s' _; [apply emits_ret|].
  apply emits_call; [apply H2|].
  intros [err|creds] w _; apply emits_ret.
Qed.

Lemma emits_ListS3Buckets_loop (bs : list (ptr s3.Bucket)) :
  forall (i : nat) (acc : list string) (s : State P),
    emits Q (ListS3Buckets_loop bs i acc) s.
Proof.
  induction bs as [|b bs IH]; intros i acc s; simpl.
  - apply emits_ret.
  - apply emits_bind; [apply emits_deref|]. intros b' s1 _.
    apply emits_bind; [apply emits_deref|]. intros name s2 _.
    apply IH.
Qed.

Lemma emits_ListS3Buckets (sess : Session P) (s : State P) :
  Q (EvListBuckets (s3.New sess (Some "ap-southeast-2"%string))) ->
  emits Q (ListS3Buckets sess) s.
Proof.
  intros H. unfold ListS3Buckets. cbv zeta.
  apply emits_call; [assumption|].
  intros [err|result] w _; [apply emits_ret|].
  apply emits_bind; [apply emits_ListS3Buckets_loop|].
  intros names s' _. apply emits_ret.
Qed.

Lemma emits_ReadAWSConfigFile (s : State P) :
  (forall path, Q (EvIniLoad path)) ->
  emits Q ReadAWSConfigFile s.
Proof.
  intros H. unfold ReadAWSConfigFile.
  apply emits_bind.
  - split; [reflexivity|]. exists []. simpl. rewrite app_nil_r. auto.
  - intros home s' E. inversion E; subst. cbv zeta.
    apply emits_call; [apply H|].
    intros [err|sections] w _; apply emits_ret.
Qed.

Lemma emits_GetProfileChoice (s : State P) :
  (forall path, Q (EvIniLoad path)) ->
  (forall label items, Q (EvPrompt label items)) ->
  emits Q GetProfileChoice s.
Proof.
  intros H1 H2. unfold GetProfileChoice, RetrieveConfiguredProfiles.
  apply emits_bind.
  - apply emits_bind; [apply emits_ReadAWSConfigFile; assumption|].
    intros [err|profiles] s' _; apply emits_ret.
  - intros [err|profiles] s' _; [apply emits_ret|].
    apply emits_call; [apply H2|].
    intros [err|[i result]] w _; apply emits_ret.
Qed.

Lemma emits_GetBucketChoice (profile : string) (s : State P) :
  Q (EvNewSession profile) ->
  (forall sess w w',
      session_NewSessionWithOptions P profile w = (inr sess, w') ->
      Q (EvListBuckets (s3.New sess (Some "ap-southeast-2"%string)))) ->
  (forall label items, Q (EvPrompt label items)) ->
  emits Q (GetBucketChoice profile) s.
Proof.
  intros H1 H2 H3. unfold GetBucketChoice, EstablishConnectionUsingProfile.
  apply emits_bind.
  - apply emits_call; [assumption|].
    intros [err|sess] w _; apply emits_ret.
  - intros r s' E.
    assert (Hr : forall sess, r = inr sess ->
                 exists w w', session_NewSessionWithOptions P profile w
                              = (inr sess, w')).
    { intros sess ->. unfold bind in E.
      destruct (session_NewSessionWithOptions P profile (world s))
        as [[err|sess'] w] eqn:E0; rewrite (call_eq _ _ _ _ _ E0) in E;
        inversion E; subst. eauto. }
    destruct r as [err|sess]; [apply emits_ret|].
    destruct (Hr sess eq_refl) as [w [w' Hs]].
    apply emits_bind; [apply emits_ListS3Buckets; eapply H2; eassumption|].
    intros [err|buckets] s2 _; [apply emits_ret|].
    apply emits_call; [apply H3|].
    intros [err|[i result]] w2 _; apply emits_ret.
Qed.

Lemma emits_bucket_loop (s3Svc : S3 P) (b : string)
    (uploads : list (ptr s3.MultipartUpload)) :
  (forall input, Q (EvAbortMultipartUpload s3Svc input)) ->
  forall s, emits Q (AbortFailedMultipartUploadsInBucket_loop s3Svc b uploads) s.
Proof.
  intros H. induction uploads as [|u uploads IH]; intros s; simpl.
  - apply emits_ret.
  - apply emits_bind; [apply emits_deref|]. intros u' s1 _.
    apply emits_call; [apply H|].
    intros [err|[]] w _; [|apply IH].
    apply emits_bind; [apply emits_deref|]. intros id s2 _.
    apply emits_bind; [apply emits_deref|]. intros key s3 _.
    apply emits_ret.
Qed.

Lemma emits_AbortFailedMultipartUploadsInBucket (sess : Session P)
    (b : string) (s : State P) :
  (forall input, Q (EvListMultipartUploads (s3.New sess None) input)) ->
  (forall input, Q (EvAbortMultipartUpload (s3.New sess None) input)) ->
  emits Q (AbortFailedMultipartUploadsInBucket sess b) s.
Proof.
  intros H1 H2. unfold AbortFailedMultipartUploadsInBucket. cbv zeta.
  apply emits_call; [apply H1|].
  intros [err|out] w _; [apply emits_ret|].
  apply emits_bucket_loop. assumption.
Qed.

End EmitFacts.

(* ================================================================= *)
(** ** The first menu entry *)

Section MenuFacts.

Context {P : SDK}.
Local Open Scope list_scope.

Lemma emits_menu_case_bucket_rest (pf profile : string) (s : State P) :
  pf = profileFlag (flags s) ->
  emits (menu_bucket_event pf profile) (menu_case_bucket_rest profile) s.
Proof.
  intros Hpf. unfold menu_case_bucket_rest.
  apply emits_getFlags. rewrite <- Hpf.
  apply emits_bind.
  { apply emits_GetCredentialsForProfile; simpl; auto. }
  intros [credErr|credentials] s1 _.
  { apply emits_bind; [apply emits_fmt_Print; exact I|].
    intros; apply emits_ret. }
  apply emits_call; [reflexivity|].
  intros [err|sess] w Hcreate.
  { apply emits_bind; [apply emits_fmt_Print; exact I|].
    intros; apply emits_ret. }
  apply emits_bind.
  { apply emits_GetBucketChoice; simpl; eauto. }
  intros [err|bucket] s2 _.
  { apply emits_bind; [apply emits_fmt_Print; exact I|].
    intros; apply emits_ret. }
  apply emits_bind; [apply emits_fmt_Print; exact I|]. intros _ s3 _.
  apply emits_bind.
  { apply emits_AbortFailedMultipartUploadsInBucket;
      intros input; simpl; eauto. }
  intros [err|] s4 _; [|apply emits_ret].
  apply emits_bind; [apply emits_fmt_Print; exact I|].
  intros; apply emits_ret.
Qed.

Lemma emits_menu_body (s : State P) : emits (fun _ => True) menu_body s.
Proof.
  unfold menu_body.
  apply emits_call; [exact I|].
  intros [err|[i result]] w _.
  { apply emits_bind; [apply emits_fmt_Print; exact I|].
    intros; apply emits_ret. }
  destruct (String.eqb result _).
  { unfold menu_case_bucket.
    apply emits_bind; [apply emits_GetProfileChoice; intros; exact I|].
    intros [err|profile] s1 _.
    - apply emits_bind; [apply emits_fmt_Print; exact I|].
      intros; apply emits_ret.
    - eapply emits_weaken;
        [|apply (emits_menu_case_bucket_rest (profileFlag (flags s1)) profile
                   s1 eq_refl)].
      intros; exact I. }
  destruct (String.eqb result _).
  { unfold menu_case_all_buckets.
    apply emits_bind; [apply emits_GetProfileChoice; intros; exact I|].
    intros [err|profile] s1 _;
      (apply emits_bind; [apply emits_fmt_Print; exact I|]);
      intros; apply emits_ret. }
  destruct (String.eqb result _); [apply emits_ret|].
  destruct (String.eqb result _); [|apply emits_ret].
  apply emits_bind; [apply emits_fmt_Print; exact I|].
  intros; apply emits_ret.
Qed.

(** The menu never assigns the flag variables. *)
Lemma menu_keeps_flags (fuel : nat) :
  forall s : State P, flags (snd (menu fuel s)) = flags s.
Proof.
  induction fuel as [|fuel IH]; intros s; [reflexivity|].
  simpl. destruct (emits_menu_body s) as [Hf _].
  unfold bind. destruct (menu_body s) as [[[|]| | |] s1]; simpl in *;
    try assumption.
  rewrite IH. assumption.
Qed.

End MenuFacts.

(** The first menu entry on the store, event by event, when no profile
    flag was given and the user picks [prod] and its bucket [p]: the
    credentials are those of [default], the session is created for the
    empty profile name, the buckets offered are those of [prod], and the
    upload of bucket [p] is aborted through the session of [default]. *)
Example menu_case_bucket_on_store :
  trace (snd (menu_case_bucket (P := Sim.sdk) (Sim.start Examples.storeMenu)))
  = [EvIniLoad "/home/ops/.aws/config";
     EvPrompt "Please select a profile" ["default"; "prod"];
     EvLoadDefaultConfig "default";
     EvRetrieve (P := Sim.sdk) "default";
     EvCreateSession (P := Sim.sdk) "" "default";
     EvNewSession "prod";
     EvListBuckets (P := Sim.sdk) (s3.New "prod" (Some "ap-southeast-2"));
     EvPrompt "Please select a bucket" ["p"];
     Stdout ("You chose profile: prod and bucket: p" ++ LF);
     EvListMultipartUploads (Examples.svc "default") (listInput "p");
     EvAbortMultipartUpload (Examples.svc "default")
       (abortInput "p" Examples.up1)].
Proof. vm_compute. reflexivity. Qed.

(* ================================================================= *)
(** ** One error value instead of a report *)

(** C5, as the specification states it, fails on the program.  With two
    uploads listed and the abort of the first one refused, the function
    returns the error for the first upload; the second upload gets no abort
    request, stays in the store, and appears nowhere in what the function
    returns or logs. *)
Lemma C5_counterexample :
  AbortFailedMultipartUploadsInBucket (P := Sim.sdk) "default" "a"
    (Sim.start Examples.storeRefused)
  = (Ret (Some (Errorf ("error aborting multipart upload id-1 for key k1: "
                        ++ "AccessDenied: Access Denied"))),
     Build_State Sim.sdk (Sim.with_faults Examples.storeRefused []) initFlags
       [EvListMultipartUploads (Examples.svc "default") (listInput "a");
        EvAbortMultipartUpload (Examples.svc "default")
          (abortInput "a" Examples.up1)])
  /\ Sim.uploadsOf "a"
       (Sim.st_uploads (Sim.with_faults Examples.storeRefused []))
     = [Examples.up1; Examples.up2].
Proof. vm_compute. split; reflexivity. Qed.

Section NoReport.

Context {P : SDK}.
Local Open Scope list_scope.

Lemma aborts_no_upload_call (evs : list (Event P)) :
  Forall no_upload_call evs -> aborts evs = [].
Proof.
  induction 1 as [|e evs He _ IH]; [reflexivity|].
  destruct e; simpl in *; try assumption. contradiction.
Qed.

Lemma emits_menu_case_all_buckets (s : State P) :
  emits no_upload_call menu_case_all_buckets s.
Proof.
  unfold menu_case_all_buckets.
  apply emits_bind; [apply emits_GetProfileChoice; intros; exact I|].
  intros [err|profile] s1 _;
    (apply emits_bind; [apply emits_fmt_Print; exact I|]);
    intros; apply emits_ret.
Qed.

(** C5, amended.  The program builds no report: a run over a bucket ends in
    one error value.  Of the uploads its listing returned, the first [k]
    have each received exactly one abort request, in listing order, and the
    others none, so no upload is aborted twice; [k] is the whole listing
    when the function returns nil; when it returns an error, the error is
    the one of the [k]-th upload, and the uploads after it have no request
    and no recorded outcome.  The menu entry for all buckets of a profile
    sends no abort request at all. *)
Theorem C5_aborts_are_a_prefix_of_the_listing (sess : Session P) (b : string)
    (s : State P) (out : s3.ListMultipartUploadsOutput) (w : World P)
    (ups : list s3.MultipartUpload) :
  s3_ListMultipartUploads P (s3.New sess None) (listInput b) (world s)
  = (inr out, w) ->
  s3.Uploads out = map Some ups ->
  (exists k,
     (k <= length ups)%nat
     /\ aborts (trace (snd (AbortFailedMultipartUploadsInBucket sess b s)))
        = aborts (trace s) ++ map (abortInput b) (firstn k ups)
     /\ (fst (AbortFailedMultipartUploadsInBucket sess b s) = Ret None ->
         k = length ups)
     /\ (forall e,
           fst (AbortFailedMultipartUploadsInBucket sess b s) = Ret (Some e) ->
           exists u id key err,
             nth_error ups (pred k) = Some u /\ (0 < k)%nat
             /\ s3.UploadId u = Some id /\ s3.Key u = Some key
             /\ e = abortFailure id key err))
  /\ (forall s0,
        aborts (trace (snd (menu_case_all_buckets (P := P) s0)))
        = aborts (trace s0)).
Proof.
  intros Hlist Hups. split.
  - rewrite (bucket_unfold sess b s out w Hlist), Hups.
    destruct (loop_prefix (s3.New sess None) b ups
                (after s (EvListMultipartUploads (s3.New sess None)
                            (listInput b)) w))
      as [k [Hk [Ht [_ [Hnil [Herr _]]]]]].
    exists k. repeat split; try assumption.
    rewrite Ht. simpl. rewrite !aborts_app, aborts_abortEvents. simpl.
    rewrite app_nil_r. reflexivity.
  - intros s0. destruct (emits_menu_case_all_buckets s0) as [_ [evs [Ht HQ]]].
    rewrite Ht, aborts_app, (aborts_no_upload_call evs HQ), app_nil_r.
    reflexivity.
Qed.

End NoReport.

(** C5 on the store where aborting [up1] is refused: one abort request, for
    the first of the two listed uploads. *)
Lemma C5_witness :
  exists k,
    (k <= 2)%nat
    /\ aborts (trace (snd (AbortFailedMultipartUploadsInBucket (P := Sim.sdk)
                             "default" "a" (Sim.start Examples.storeRefused))))
       = map (abortInput "a") (firstn k [Examples.up1; Examples.up2])
    /\ (fst (AbortFailedMultipartUploadsInBucket (P := Sim.sdk) "default" "a"
               (Sim.start Examples.storeRefused)) = Ret None -> k = 2%nat)
    /\ (forall e,
          fst (AbortFailedMultipartUploadsInBucket (P := Sim.sdk) "default" "a"
                 (Sim.start Examples.storeRefused)) = Ret (Some e) ->
          exists u id key err,
            nth_error [Examples.up1; Examples.up2] (pred k) = Some u
            /\ (0 < k)%nat
            /\ s3.UploadId u = Some id /\ s3.Key u = Some key
            /\ e = abortFailure id key err).
Proof.
  apply (C5_aborts_are_a_prefix_of_the_listing (P := Sim.sdk) "default" "a"
           (Sim.start Examples.storeRefused)
           {| s3.Uploads := [Some Examples.up1; Some Examples.up2];
              s3.IsTruncated := Some false;
              s3.NextKeyMarker := None;
              s3.NextUploadIdMarker := None |}
           Examples.storeRefused [Examples.up1; Examples.up2]);
    reflexivity.
Defined.

(* ================================================================= *)
(** ** Runs against the store *)

Section StoreFacts.

Import Sim.
Local Open Scope list_scope.

Lemma eq_ptr_refl (a : ptr string) : eq_ptr a a = true.
Proof. destruct a; simpl; [apply String.eqb_refl | reflexivity]. Qed.

Lemma eq_ptr_eq (a b : ptr string) : eq_ptr a b = true -> a = b.
Proof.
  destruct a, b; simpl; intros H; try discriminate; [|reflexivity].
  apply String.eqb_eq in H. congruence.
Qed.

Lemma is_upload_ident (b : string) (u u' : s3.MultipartUpload)
    (bu : string * s3.MultipartUpload) :
  is_upload b (s3.Key u) (s3.UploadId u) bu = true ->
  is_upload b (s3.Key u') (s3.UploadId u') bu = true ->
  ident u = ident u'.
Proof.
  unfold is_upload, same_upload, ident. intros H H'.
  apply andb_prop in H. destruct H as [_ H].
  apply andb_prop in H. destruct H as [Hk Hi].
  apply andb_prop in H'. destruct H' as [_ H'].
  apply andb_prop in H'. destruct H' as [Hk' Hi'].
  apply eq_ptr_eq in Hk, Hi, Hk', Hi'. congruence.
Qed.

(** The listing of a bucket whose entries fit in one page. *)
Lemma list_single_page (sess : string) (b : string) (w : Store) :
  mem b (st_denied w) = false ->
  (length (listed b w) <= st_maxUploads w)%nat ->
  listMultipartUploads (s3.New sess None) (listInput b) w
  = (inr {| s3.Uploads := map Some (listed b w);
            s3.IsTruncated := Some false;
            s3.NextKeyMarker := None;
            s3.NextUploadIdMarker := None |}, w).
Proof.
  intros Hd Hlen. unfold listMultipartUploads, listInput. simpl.
  rewrite Hd. fold (listed b w).
  rewrite firstn_all2 by assumption.
  destruct (Nat.ltb_spec (st_maxUploads w) (length (listed b w))); [lia|].
  reflexivity.
Qed.

(** The abort of an upload in progress, in a consistent store. *)
Lemma abort_in_progress (svc : s3.S3 string) (b key id : string)
    (u : s3.MultipartUpload) (w : Store) :
  s3.Key u = Some key ->
  s3.UploadId u = Some id ->
  st_faults w = [] ->
  st_lagging w = false ->
  existsb (is_upload b (Some key) (Some id)) (st_uploads w) = true ->
  abortMultipartUpload svc (abortInput b u) w
  = (inr tt,
     with_uploads w
       (filter (fun bu => negb (is_upload b (Some key) (Some id) bu))
          (st_uploads w))
       (st_ghosts w)).
Proof.
  intros Hk Hi Hf Hl Hex. unfold abortMultipartUpload, abortInput. simpl.
  rewrite Hk, Hi, Hf. simpl. rewrite Hex, Hl. reflexivity.
Qed.

Lemma filter_among (b : string) (u : s3.MultipartUpload)
    (ups : list s3.MultipartUpload) (l : list (string * s3.MultipartUpload)) :
  filter (fun bu => negb (among b ups bu))
    (filter (fun bu => negb (is_upload b (s3.Key u) (s3.UploadId u) bu)) l)
  = filter (fun bu => negb (among b (u :: ups) bu)) l.
Proof.
  induction l as [|bu l IH]; simpl; [reflexivity|].
  destruct (is_upload b (s3.Key u) (s3.UploadId u) bu) eqn:E; simpl.
  - assumption.
  - destruct (among b ups bu); simpl; rewrite IH; reflexivity.
Qed.

(** An upload still in progress after another one was removed. *)
Lemma existsb_filter_other (b : string) (u u' : s3.MultipartUpload)
    (l : list (string * s3.MultipartUpload)) :
  ident u <> ident u' ->
  existsb (is_upload b (s3.Key u') (s3.UploadId u')) l = true ->
  existsb (is_upload b (s3.Key u') (s3.UploadId u'))
    (filter (fun bu => negb (is_upload b (s3.Key u) (s3.UploadId u) bu)) l)
  = true.
Proof.
  intros Hne H. apply existsb_exists in H. destruct H as [bu [Hin Hbu]].
  apply existsb_exists. exists bu. split; [|assumption].
  apply filter_In. split; [assumption|].
  destruct (is_upload b (s3.Key u) (s3.UploadId u) bu) eqn:E; [|reflexivity].
  exfalso. apply Hne. eapply is_upload_ident; eassumption.
Qed.

(** In a consistent store, the loop over distinct uploads in progress aborts
    them all: it returns nil, has sent one request each, and the store has
    lost exactly those uploads. *)
Lemma loop_on_store (svc : s3.S3 string) (b : string)
    (ups : list s3.MultipartUpload) :
  forall s : State sdk,
    consistent (world s) ->
    Forall (fun u => s3.Key u <> None /\ s3.UploadId u <> None) ups ->
    NoDup (map ident ups) ->
    Forall (fun u => existsb (is_upload b (s3.Key u) (s3.UploadId u))
                       (st_uploads (world s)) = true) ups ->
    AbortFailedMultipartUploadsInBucket_loop (P := sdk) svc b (map Some ups) s
    = (Ret None,
       Build_State sdk
         (with_uploads (world s)
            (filter (fun bu => negb (among b ups bu)) (st_uploads (world s)))
            (st_ghosts (world s)))
         (flags s)
         (trace s ++ abortEvents (P := sdk) svc b ups)).
Proof.
  induction ups as [|u ups IH]; intros s Hc Hwf Hnd Hin.
  - simpl. rewrite app_nil_r. unfold ret. f_equal.
    destruct s as [w f t]. simpl. f_equal.
    destruct w as [h i bs l g lag d m fs a]. unfold with_uploads. simpl.
    f_equal. clear. induction l as [|x l IHl]; simpl; [reflexivity|].
    rewrite <- IHl. reflexivity.
  - inversion Hwf as [|? ? [Hk Hi] Hwf']; subst.
    inversion Hnd as [|? ? Hnotin Hnd']; subst.
    inversion Hin as [|? ? Hu Hin']; subst.
    destruct (s3.Key u) as [key|] eqn:Ek; [|congruence].
    destruct (s3.UploadId u) as [id|] eqn:Ei; [|congruence].
    destruct Hc as [Hf [Hg Hl]].
    simpl map.
    rewrite (loop_step_ok (P := sdk) svc b u (map Some ups) s _
               (abort_in_progress svc b key id u (world s) Ek Ei Hf Hl Hu)).
    rewrite IH.
    + simpl. f_equal. f_equal.
      * unfold with_uploads. simpl. f_equal.
        rewrite <- (filter_among b u ups). rewrite Ek, Ei. reflexivity.
      * rewrite <- app_assoc. reflexivity.
    + simpl. repeat split; assumption.
    + assumption.
    + assumption.
    + simpl. rewrite Forall_forall in Hin' |- *. intros u' Hu'.
      rewrite <- Ek, <- Ei. apply existsb_filter_other; [|apply Hin'; assumption].
      intros Heq. apply Hnotin. rewrite Heq. apply in_map. assumption.
Qed.

(** Every upload a bucket shows is in progress under its own name. *)
Lemma uploadsOf_in_progress (b : string)
    (l : list (string * s3.MultipartUpload)) :
  Forall (fun u => existsb (is_upload b (s3.Key u) (s3.UploadId u)) l = true)
    (uploadsOf b l).
Proof.
  apply Forall_forall. intros u Hu. unfold uploadsOf in Hu.
  apply in_map_iff in Hu. destruct Hu as [[b' u'] [Hs Hf]]. simpl in Hs.
  subst u'. apply filter_In in Hf. destruct Hf as [Hin Hb]. simpl in Hb.
  apply existsb_exists. exists (b', u). split; [assumption|].
  unfold is_upload, same_upload. simpl.
  rewrite Hb, !eq_ptr_refl. reflexivity.
Qed.

(** Once all the uploads a bucket showed are removed, it shows none. *)
Lemma uploadsOf_after (b : string) (l : list (string * s3.MultipartUpload)) :
  uploadsOf b (filter (fun bu => negb (among b (uploadsOf b l) bu)) l) = [].
Proof.
  assert (H : forall ups l',
             (forall bu, In bu l' -> String.eqb (fst bu) b = true ->
                         In (snd bu) ups) ->
             uploadsOf b (filter (fun bu => negb (among b ups bu)) l') = []).
  { intros ups l'. induction l' as [|bu l' IHl]; intros Hall; [reflexivity|].
    simpl. destruct (among b ups bu) eqn:E; simpl.
    - apply IHl. intros bu' Hin. apply Hall. right. assumption.
    - unfold uploadsOf. simpl.
      destruct (String.eqb (fst bu) b) eqn:Eb.
      + exfalso. assert (Hin : In (snd bu) ups) by (apply Hall; [left|]; auto).
        unfold among in E.
        assert (existsb (fun u => is_upload b (s3.Key u) (s3.UploadId u) bu)
                  ups = true).
        { apply existsb_exists. exists (snd bu). split; [assumption|].
          unfold is_upload, same_upload. rewrite Eb, !eq_ptr_refl.
          reflexivity. }
        congruence.
      + apply IHl. intros bu' Hin. apply Hall. right. assumption. }
  apply H. intros bu Hin Hb. unfold uploadsOf.
  apply in_map. apply filter_In. split; assumption.
Qed.

End StoreFacts.

(* ================================================================= *)
(** ** One listing request *)

(** C3.  The listing is cut short.  Bucket [a] holds two uploads that the
    store serves one per page.  The cursor of the specification fetches
    both pages and yields both descriptors; the function sends one listing
    request, never looks at the truncation mark of the answer, aborts the
    one upload of the first page, returns nil, and the second upload is
    still in the bucket. *)
Theorem C3_truncated_listing_leaves_uploads :
  fst (Spec.listUploads (P := Sim.sdk) 3 (Examples.svc "default") "a" None None
         (Sim.start Examples.storePaged))
  = Ret (inr [Some Examples.up1; Some Examples.up2])
  /\ length (listings
               (trace (snd (Spec.listUploads (P := Sim.sdk) 3
                              (Examples.svc "default") "a" None None
                              (Sim.start Examples.storePaged))))) = 2%nat
  /\ fst (AbortFailedMultipartUploadsInBucket (P := Sim.sdk) "default" "a"
            (Sim.start Examples.storePaged)) = Ret None
  /\ trace (snd (AbortFailedMultipartUploadsInBucket (P := Sim.sdk) "default"
                   "a" (Sim.start Examples.storePaged)))
     = [EvListMultipartUploads (Examples.svc "default") (listInput "a");
        EvAbortMultipartUpload (Examples.svc "default")
          (abortInput "a" Examples.up1)]
  /\ Sim.uploadsOf "a"
       (Sim.st_uploads
          (world (snd (AbortFailedMultipartUploadsInBucket (P := Sim.sdk)
                         "default" "a" (Sim.start Examples.storePaged)))))
     = [Examples.up2].
Proof. vm_compute. repeat split; reflexivity. Qed.

Section OneListing.

Local Open Scope list_scope.

Lemma listings_abort_calls {P : SDK} (evs : list (Event P)) :
  Forall abort_call evs -> listings evs = [].
Proof.
  induction 1 as [|e evs He _ IH]; [reflexivity|].
  destruct e; simpl in *; try contradiction. assumption.
Qed.

(** Whatever the provider answers, the function sends exactly one listing
    request, for the bucket and without markers. *)
Lemma one_listing {P : SDK} (sess : Session P) (b : string) (s : State P) :
  listings (trace (snd (AbortFailedMultipartUploadsInBucket sess b s)))
  = listings (trace s) ++ [listInput b].
Proof.
  destruct (s3_ListMultipartUploads P (s3.New sess None) (listInput b)
              (world s)) as [[err|out] w] eqn:E.
  - rewrite (bucket_list_err sess b s err w E). simpl.
    rewrite listings_app. reflexivity.
  - rewrite (bucket_unfold sess b s out w E).
    destruct (emits_bucket_loop abort_call (s3.New sess None) b
                (s3.Uploads out) (fun _ => I)
                (after s (EvListMultipartUploads (s3.New sess None)
                            (listInput b)) w))
      as [_ [evs [Ht HQ]]].
    rewrite Ht. simpl. rewrite !listings_app, (listings_abort_calls evs HQ).
    simpl. rewrite app_nil_r. reflexivity.
Qed.

End OneListing.

(* ================================================================= *)
(** ** Running twice *)

(** C6, as the specification states it, fails on the program.  Against a
    store whose listings lag behind, the first run aborts [up1] and returns
    nil; the second run, with no upload created in between, is shown [up1]
    again, sends a second abort request for the same upload id, gets
    NoSuchUpload, and returns it as an error. *)
Lemma C6_counterexample :
  fst (AbortFailedMultipartUploadsInBucket (P := Sim.sdk) "default" "a"
         (Sim.start Examples.storeLagging)) = Ret None
  /\ aborts (trace (snd (AbortFailedMultipartUploadsInBucket (P := Sim.sdk)
                           "default" "a" (Sim.start Examples.storeLagging))))
     = [abortInput "a" Examples.up1]
  /\ fst (AbortFailedMultipartUploadsInBucket (P := Sim.sdk) "default" "a"
            (snd (AbortFailedMultipartUploadsInBucket (P := Sim.sdk)
                    "default" "a" (Sim.start Examples.storeLagging))))
     = Ret (Some (Errorf ("error aborting multipart upload id-1 for key k1: "
                          ++ "NoSuchUpload: The specified upload does not exist.")))
  /\ aborts (trace (snd (AbortFailedMultipartUploadsInBucket (P := Sim.sdk)
                           "default" "a"
                           (snd (AbortFailedMultipartUploadsInBucket
                                   (P := Sim.sdk) "default" "a"
                                   (Sim.start Examples.storeLagging))))))
     = [abortInput "a" Examples.up1; abortInput "a" Examples.up1].
Proof. vm_compute. repeat split; reflexivity. Qed.

Section TwoRuns.

Import Sim.
Local Open Scope list_scope.

(** The first run over a bucket of a consistent store whose distinct,
    well-formed uploads fit in one page. *)
Lemma first_run_on_store (sess b : string) (s : State sdk) :
  consistent (world s) ->
  mem b (st_denied (world s)) = false ->
  (length (listed b (world s)) <= st_maxUploads (world s))%nat ->
  Forall (fun u => s3.Key u <> None /\ s3.UploadId u <> None)
    (listed b (world s)) ->
  NoDup (map ident (listed b (world s))) ->
  AbortFailedMultipartUploadsInBucket (P := sdk) sess b s
  = (Ret None,
     Build_State sdk
       (with_uploads (world s)
          (filter (fun bu => negb (among b (listed b (world s)) bu))
             (st_uploads (world s)))
          (st_ghosts (world s)))
       (flags s)
       (trace s
        ++ EvListMultipartUploads (Examples.svc sess) (listInput b)
           :: abortEvents (P := sdk) (Examples.svc sess) b
                (listed b (world s)))).
Proof.
  intros Hc Hd Hlen Hwf Hnd.
  rewrite (bucket_unfold (P := sdk) sess b s _ _
             (list_single_page sess b (world s) Hd Hlen)).
  simpl s3.Uploads. rewrite loop_on_store; simpl; try assumption.
  - rewrite <- app_assoc. reflexivity.
  - destruct Hc as [_ [Hg _]]. unfold listed. rewrite Hg, app_nil_r.
    apply uploadsOf_in_progress.
Qed.

End TwoRuns.

(* ================================================================= *)
(** ** discover *)

Section DiscoverFacts.

Context {P : SDK}.
Local Open Scope list_scope.

(** X11. The loop of [discover] over the buckets prints one line per
    bucket, in order, and calls nothing: [printFailedUploads] is a print.
    The world and the flags are as before, so for all buckets as for one,
    [discover] shows no upload and changes none. *)
Lemma discover_loop_prints (sess : Session P) (buckets : list string) :
  forall s : State P,
    discover_loop sess buckets s
    = (Ret tt,
       {| world := world s; flags := flags s;
          trace := trace s
                   ++ map (fun b => Stdout ("Failed uploads for bucket: "
                                            ++ b ++ LF)%string)
                        buckets |}).
Proof.
  induction buckets as [|b buckets IH]; intros s.
  - simpl. rewrite app_nil_r. destruct s; reflexivity.
  - simpl. unfold bind at 1. unfold printFailedUploads, fmt_Print, emit.
    rewrite IH. simpl. rewrite <- app_assoc. reflexivity.
Qed.

End DiscoverFacts.

(* ================================================================= *)
(** ** Package config: the profiles of the configuration file *)

Section ConfigFacts.

Context {P : SDK}.
Local Open Scope list_scope.

Lemma fold_left_append {A B : Type} (f : A -> B) (l : list A) :
  forall acc : list B,
    fold_left (fun profiles x => profiles ++ [f x]) l acc = acc ++ map f l.
Proof.
  induction l as [|x l IH]; intros acc; simpl.
  - rewrite app_nil_r. reflexivity.
  - rewrite IH, <- app_assoc. reflexivity.
Qed.

Lemma profiles_of_sections (sections : list IniSection) :
  fold_left
    (fun profiles section =>
       profiles ++ [ {| pc_Name := sec_Name section;
                        pc_Region := sec_Key (sec_Keys section) "region" |} ])
    sections []
  = map profileOfSection sections.
Proof. exact (fold_left_append profileOfSection sections []). Qed.

Lemma RetrieveConfiguredProfiles_loop_names (profiles : list ProfileConfig) :
  forall pre : list string,
    RetrieveConfiguredProfiles_loop profiles (length pre)
      (pre ++ repeat ""%string (length profiles))
    = pre ++ map pc_Name profiles.
Proof.
  induction profiles as [|p profiles IH]; intros pre; simpl.
  - reflexivity.
  - rewrite set_index_app.
    replace (pre ++ pc_Name p :: repeat ""%string (length profiles))
      with ((pre ++ [pc_Name p]) ++ repeat ""%string (length profiles))
      by (rewrite <- app_assoc; reflexivity).
    replace (S (length pre)) with (length (pre ++ [pc_Name p]))
      by (rewrite length_app; simpl; lia).
    rewrite IH, <- app_assoc. reflexivity.
Qed.

(** X1. [ReadAWSConfigFile] loads the file [config] of the directory [.aws]
    under [$HOME], once.  When the load succeeds it returns one profile per
    section of the file, in the order of the file, with the section's name
    as it stands and the value of its [region] key (the empty string when
    the section has none); when the load fails it returns the library's
    error as it is. *)
Theorem X1_ReadAWSConfigFile_profiles (s : State P) :
  ReadAWSConfigFile s
  = (Ret match fst (ini_Load P (awsConfigPath (world s)) (world s)) with
         | inl err => inl err
         | inr sections => inr (map profileOfSection sections)
         end,
     after s (EvIniLoad (awsConfigPath (world s)))
       (snd (ini_Load P (awsConfigPath (world s)) (world s)))).
Proof.
  unfold ReadAWSConfigFile, awsConfigPath.
  unfold bind at 1. cbv zeta.
  destruct (ini_Load P
              (filepath_Join P [os_Getenv P "HOME" (world s);
                                ".aws"%string; "config"%string])
              (world s)) as [[err|sections] w] eqn:E;
    rewrite (bind_call _ _ _ _ _ _ E); simpl; [reflexivity|].
  unfold ret. rewrite profiles_of_sections. reflexivity.
Qed.

(** X2. [RetrieveConfiguredProfiles] returns exactly the names of the
    sections of the configuration file, as many and in the same order (no
    section is skipped and no name is rewritten), and passes a failed load
    on unchanged. *)
Theorem X2_RetrieveConfiguredProfiles_names (s : State P) :
  RetrieveConfiguredProfiles s
  = (Ret match fst (ini_Load P (awsConfigPath (world s)) (world s)) with
         | inl err => inl err
         | inr sections => inr (map sec_Name sections)
         end,
     after s (EvIniLoad (awsConfigPath (world s)))
       (snd (ini_Load P (awsConfigPath (world s)) (world s)))).
Proof.
  unfold RetrieveConfiguredProfiles, ReadAWSConfigFile, awsConfigPath.
  unfold bind at 1 2. cbv zeta.
  destruct (ini_Load P
              (filepath_Join P [os_Getenv P "HOME" (world s);
                                ".aws"%string; "config"%string])
              (world s)) as [[err|sections] w] eqn:E;
    rewrite (bind_call _ _ _ _ _ _ E); simpl; [reflexivity|].
  unfold ret. f_equal. f_equal. f_equal.
  rewrite profiles_of_sections.
  pose proof (RetrieveConfiguredProfiles_loop_names
                (map profileOfSection sections) []) as H.
  simpl in H. rewrite H, map_map. reflexivity.
Qed.

End ConfigFacts.

(* ================================================================= *)
(** ** The two selection prompts *)

Section ChoiceFacts.

Context {P : SDK}.
Local Open Scope list_scope.

Lemma RetrieveConfiguredProfiles_run (s : State P)
    (r : error + list IniSection) (w : World P) :
  ini_Load P (awsConfigPath (world s)) (world s) = (r, w) ->
  RetrieveConfiguredProfiles s
  = (Ret match r with
         | inl err => inl err
         | inr sections => inr (map sec_Name sections)
         end,
     after s (EvIniLoad (awsConfigPath (world s))) w).
Proof.
  intros E. unfold RetrieveConfiguredProfiles, ReadAWSConfigFile.
  unfold bind at 1 2. cbv zeta. fold (awsConfigPath (world s)).
  rewrite (bind_call _ _ _ _ _ _ E).
  destruct r as [err|sections]; simpl; [reflexivity|].
  unfold ret. f_equal. f_equal. f_equal.
  rewrite profiles_of_sections.
  pose proof (RetrieveConfiguredProfiles_loop_names
                (map profileOfSection sections) []) as H.
  simpl in H. rewrite H, map_map. reflexivity.
Qed.

(** X3. [GetProfileChoice] shows one prompt whose items are exactly the
    section names of the configuration file, in file order, and returns the
    item the prompt gives back; when the prompt fails its error is returned
    with an empty name, and when the file cannot be loaded the load error
    is returned and no prompt is shown. *)
Theorem X3_GetProfileChoice_offers_the_sections (s : State P) :
  GetProfileChoice s
  = match ini_Load P (awsConfigPath (world s)) (world s) with
    | (inl err, w) =>
        (Ret (inl err), after s (EvIniLoad (awsConfigPath (world s))) w)
    | (inr sections, w) =>
        match promptui_Run P "Please select a profile"
                (map sec_Name sections) w with
        | (inl err, w') =>
            (Ret (inl err),
             after (after s (EvIniLoad (awsConfigPath (world s))) w)
               (EvPrompt "Please select a profile" (map sec_Name sections))
               w')
        | (inr (_, result), w') =>
            (Ret (inr result),
             after (after s (EvIniLoad (awsConfigPath (world s))) w)
               (EvPrompt "Please select a profile" (map sec_Name sections))
               w')
        end
    end.
Proof.
  unfold GetProfileChoice.
  destruct (ini_Load P (awsConfigPath (world s)) (world s)) as [r w] eqn:E.
  rewrite (bind_Ret _ _ _ _ _ (RetrieveConfiguredProfiles_run s r w E)).
  destruct r as [err|sections]; [reflexivity|].
  destruct (promptui_Run P "Please select a profile" (map sec_Name sections) w)
    as [[err|[i result]] w'] eqn:Ep;
    rewrite (bind_call (B := error + string) _ _ _
               (after s (EvIniLoad (awsConfigPath (world s))) w) _ _ Ep);
    reflexivity.
Qed.

(** X4. Once the session for [profile] is open, [GetBucketChoice] lists the
    buckets through that session in region ap-southeast-2.  When the
    listing fails, its error is returned and no prompt is shown.  When it
    succeeds with every bucket named, one prompt is shown whose items are
    exactly the bucket names in the order of the response, and the item
    the prompt gives back is returned (or the prompt's error). *)
Theorem X4_GetBucketChoice_offers_the_buckets (profile : string)
    (s : State P) (sess : Session P) (w1 : World P) :
  session_NewSessionWithOptions P profile (world s) = (inr sess, w1) ->
  (forall err w2,
      s3_ListBuckets P (s3.New sess (Some "ap-southeast-2"%string)) w1
      = (inl err, w2) ->
      GetBucketChoice profile s
      = (Ret (inl err),
         after (after s (EvNewSession profile) w1)
           (EvListBuckets (s3.New sess (Some "ap-southeast-2"%string))) w2))
  /\ (forall out w2 names,
        s3_ListBuckets P (s3.New sess (Some "ap-southeast-2"%string)) w1
        = (inr out, w2) ->
        map Some names = map bucket_name (s3.Buckets out) ->
        GetBucketChoice profile s
        = match promptui_Run P "Please select a bucket" names w2 with
          | (inl err, w3) =>
              (Ret (inl err),
               after (after (after s (EvNewSession profile) w1)
                        (EvListBuckets
                           (s3.New sess (Some "ap-southeast-2"%string))) w2)
                 (EvPrompt "Please select a bucket" names) w3)
          | (inr (_, result), w3) =>
              (Ret (inr result),
               after (after (after s (EvNewSession profile) w1)
                        (EvListBuckets
                           (s3.New sess (Some "ap-southeast-2"%string))) w2)
                 (EvPrompt "Please select a bucket" names) w3)
          end).
Proof.
  intros Hs.
  assert (Hconn : EstablishConnectionUsingProfile profile s
                  = (Ret (inr sess), after s (EvNewSession profile) w1)).
  { unfold EstablishConnectionUsingProfile.
    rewrite (bind_call _ _ _ _ _ _ Hs). reflexivity. }
  split.
  - intros err w2 Hl. unfold GetBucketChoice.
    rewrite (bind_Ret _ _ _ _ _ Hconn).
    unfold ListS3Buckets. cbv zeta. unfold bind at 1.
    rewrite (bind_call _ _ _ (after s (EvNewSession profile) w1) _ _ Hl).
    reflexivity.
  - intros out w2 names Hl Hn. unfold GetBucketChoice.
    rewrite (bind_Ret _ _ _ _ _ Hconn).
    assert (Hlist : ListS3Buckets sess (after s (EvNewSession profile) w1)
                    = (Ret (inr names),
                       after (after s (EvNewSession profile) w1)
                         (EvListBuckets
                            (s3.New sess (Some "ap-southeast-2"%string))) w2)).
    { unfold ListS3Buckets. cbv zeta.
      rewrite (bind_call _ _ _ (after s (EvNewSession profile) w1) _ _ Hl).
      unfold bind.
      rewrite (ListS3Buckets_loop_names (s3.Buckets out) names [] _ Hn).
      reflexivity. }
    rewrite (bind_Ret _ _ _ _ _ Hlist).
    destruct (promptui_Run P "Please select a bucket" names w2)
      as [[err|[i result]] w3] eqn:Ep;
      rewrite (bind_call (B := error + string) _ _ _
                 (after (after s (EvNewSession profile) w1)
                    (EvListBuckets
                       (s3.New sess (Some "ap-southeast-2"%string))) w2)
                 _ _ Ep);
      reflexivity.
Qed.

Lemma LoadAWSConfigForProfile_run (profile : string) (s : State P) :
  LoadAWSConfigForProfile profile s
  = match config_LoadDefaultConfig P (loadedProfile profile) (world s) with
    | (inl err, w) =>
        (Ret (inl (Errorf ("failed to load AWS config for profile "
                           ++ loadedProfile profile ++ ": "
                           ++ Error err)%string)),
         after s (EvLoadDefaultConfig (loadedProfile profile)) w)
    | (inr cfg, w) =>
        (Ret (inr cfg), after s (EvLoadDefaultConfig (loadedProfile profile)) w)
    end.
Proof.
  unfold LoadAWSConfigForProfile. cbv zeta. fold (loadedProfile profile).
  destruct (config_LoadDefaultConfig P (loadedProfile profile) (world s))
    as [[err|cfg] w] eqn:E;
    rewrite (bind_call _ _ _ _ _ _ E); reflexivity.
Qed.

Lemma GetCredentialsForProfile_run (profile : string) (s : State P) :
  GetCredentialsForProfile profile s
  = match config_LoadDefaultConfig P (loadedProfile profile) (world s) with
    | (inl err, w) =>
        (Ret (inl (Errorf ("failed to load AWS config for profile "
                           ++ loadedProfile profile ++ ": "
                           ++ Error err)%string)),
         after s (EvLoadDefaultConfig (loadedProfile profile)) w)
    | (inr cfg, w) =>
        match Credentials_Retrieve P cfg w with
        | (inl err, w') =>
            (Ret (inl (Errorf ("failed to retrieve credentials for profile "
                               ++ profile ++ ": " ++ Error err)%string)),
             after (after s (EvLoadDefaultConfig (loadedProfile profile)) w)
               (EvRetrieve cfg) w')
        | (inr creds, w') =>
            (Ret (inr creds),
             after (after s (EvLoadDefaultConfig (loadedProfile profile)) w)
               (EvRetrieve cfg) w')
        end
    end.
Proof.
  unfold GetCredentialsForProfile. unfold bind at 1.
  rewrite LoadAWSConfigForProfile_run.
  destruct (config_LoadDefaultConfig P (loadedProfile profile) (world s))
    as [[err|cfg] w]; [reflexivity|].
  destruct (Credentials_Retrieve P cfg w) as [[err|creds] w'] eqn:E';
    rewrite (bind_call _ _ _
               (after s (EvLoadDefaultConfig (loadedProfile profile)) w)
               _ _ E');
    reflexivity.
Qed.

(** X5. Asking for the credentials of the empty profile name is asking for
    those of the profile [default]: the same calls are made and the world
    ends the same, and the results are equal, except that when retrieving
    the credentials fails the error of the first names an empty profile
    where the error of the second names [default]. *)
Theorem X5_empty_profile_is_default (s : State P) :
  snd (GetCredentialsForProfile ""%string s)
  = snd (GetCredentialsForProfile "default"%string s)
  /\ (fst (GetCredentialsForProfile ""%string s)
      = fst (GetCredentialsForProfile "default"%string s)
      \/ exists err,
           fst (GetCredentialsForProfile ""%string s)
           = Ret (inl (Errorf ("failed to retrieve credentials for profile "
                               ++ "" ++ ": " ++ Error err)%string))
           /\ fst (GetCredentialsForProfile "default"%string s)
              = Ret (inl (Errorf ("failed to retrieve credentials for profile "
                                  ++ "default" ++ ": " ++ Error err)%string))).
Proof.
  rewrite !GetCredentialsForProfile_run.
  change (loadedProfile "") with "default"%string.
  change (loadedProfile "default") with "default"%string.
  destruct (config_LoadDefaultConfig P "default"%string (world s))
    as [[err|cfg] w].
  - split; [reflexivity | left; reflexivity].
  - destruct (Credentials_Retrieve P cfg w) as [[err|creds] w'].
    + split; [reflexivity | right; exists err; split; reflexivity].
    + split; [reflexivity | left; reflexivity].
Qed.

End ChoiceFacts.

(** X4 on the store: for [prod] the prompt offers the bucket [p] and the
    user's pick is returned; for a profile the provider does not know, the
    listing fails and no prompt is shown. *)
Lemma X4_witness :
  GetBucketChoice (P := Sim.sdk) "prod"
    (Sim.start (Sim.with_answers Examples.storeMenu ["p"]))
  = (Ret (inr "p"),
     Build_State Sim.sdk (Sim.with_answers Examples.storeMenu []) initFlags
       [EvNewSession "prod";
        EvListBuckets (P := Sim.sdk) (s3.New "prod" (Some "ap-southeast-2"));
        EvPrompt "Please select a bucket" ["p"]])
  /\ GetBucketChoice (P := Sim.sdk) "ghost" (Sim.start Examples.storeMenu)
     = (Ret (inl (LibErr "InvalidAccessKeyId" "unknown account")),
        Build_State Sim.sdk Examples.storeMenu initFlags
          [EvNewSession "ghost";
           EvListBuckets (P := Sim.sdk)
             (s3.New "ghost" (Some "ap-southeast-2"))]).
Proof.
  split.
  - rewrite (proj2 (X4_GetBucketChoice_offers_the_buckets (P := Sim.sdk)
                      "prod"
                      (Sim.start (Sim.with_answers Examples.storeMenu ["p"]))
                      "prod" (Sim.with_answers Examples.storeMenu ["p"])
                      eq_refl)
               {| s3.Buckets := [Examples.bucket "p"] |}
               (Sim.with_answers Examples.storeMenu ["p"]) ["p"]
               eq_refl eq_refl).
    reflexivity.
  - apply (proj1 (X4_GetBucketChoice_offers_the_buckets (P := Sim.sdk)
                    "ghost" (Sim.start Examples.storeMenu)
                    "ghost" Examples.storeMenu eq_refl)).
    reflexivity.
Defined.

(* ================================================================= *)
(** ** What the abort functions may touch *)

Section Reach.

Context {P : SDK}.
Local Open Scope list_scope.

(** The loop sends abort requests only for entries of the listing it was
    given, and only in the bucket it was given. *)
Lemma loop_reach (s3Svc : S3 P) (b : string)
    (uploads : list (ptr s3.MultipartUpload)) :
  forall s : State P,
    logs (fun e => exists u, In (Some u) uploads
                             /\ e = EvAbortMultipartUpload s3Svc
                                      (abortInput b u))
      (AbortFailedMultipartUploadsInBucket_loop s3Svc b uploads) s.
Proof.
  induction uploads as [|u uploads IH]; intros s.
  - exists []. simpl. rewrite app_nil_r. auto.
  - destruct u as [u|].
    + unfold logs. rewrite loop_cons.
      destruct (s3_AbortMultipartUpload P s3Svc (abortInput b u) (world s))
        as [[err|[]] w].
      * exists [EvAbortMultipartUpload s3Svc (abortInput b u)]. simpl.
        split; [reflexivity|]. constructor; [|constructor].
        exists u. split; [left|]; reflexivity.
      * destruct (IH (after s (EvAbortMultipartUpload s3Svc (abortInput b u))
                        w)) as [evs [Ht HQ]].
        exists (EvAbortMultipartUpload s3Svc (abortInput b u) :: evs).
        rewrite Ht. simpl. rewrite <- app_assoc. split; [reflexivity|].
        constructor.
        -- exists u. split; [left|]; reflexivity.
        -- eapply Forall_impl; [|exact HQ].
           intros e [u' [Hin He]]. exists u'. split; [right|]; assumption.
    + exists []. simpl. rewrite app_nil_r. auto.
Qed.

(** X6. [AbortFailedMultipartUploadsInBucket] touches only what it was
    shown: after its one listing request, everything it sends is an abort
    request, through the same client, in the bucket it was called for, and
    for the key and upload id of an entry of the page the provider returned
    for that listing.  (When the listing fails there is no such page, so
    nothing is aborted.) *)
Theorem X6_aborts_only_what_was_listed (sess : Session P) (b : string)
    (s : State P) :
  exists evs,
    trace (snd (AbortFailedMultipartUploadsInBucket sess b s))
    = trace s
      ++ EvListMultipartUploads (s3.New sess None) (listInput b) :: evs
    /\ Forall
         (fun e =>
            exists out w u,
              s3_ListMultipartUploads P (s3.New sess None) (listInput b)
                (world s) = (inr out, w)
              /\ In (Some u) (s3.Uploads out)
              /\ e = EvAbortMultipartUpload (s3.New sess None)
                       (abortInput b u))
         evs.
Proof.
  destruct (s3_ListMultipartUploads P (s3.New sess None) (listInput b)
              (world s)) as [[err|out] w] eqn:E.
  - exists []. rewrite (bucket_list_err sess b s err w E). simpl. auto.
  - rewrite (bucket_unfold sess b s out w E).
    destruct (loop_reach (s3.New sess None) b (s3.Uploads out)
                (after s (EvListMultipartUploads (s3.New sess None)
                            (listInput b)) w))
      as [evs [Ht HQ]].
    exists evs. rewrite Ht. simpl. rewrite <- app_assoc.
    split; [reflexivity|].
    eapply Forall_impl; [|exact HQ].
    intros e [u [Hin He]]. exists out, w, u. auto.
Qed.

(** X7. Two ways the loop over a listing crashes instead of returning an
    error, once the entries before were aborted without error: a nil entry
    panics before any request is sent for it; and when the abort of an
    entry fails and that entry has no upload id or no key, building the
    error message dereferences the nil pointer, so the failure ends in a
    panic, after the one request. *)
Theorem X7_loop_panics (s3Svc : S3 P) (b : string)
    (pre rest : list (ptr s3.MultipartUpload)) (s s1 : State P) :
  AbortFailedMultipartUploadsInBucket_loop s3Svc b pre s = (Ret None, s1) ->
  AbortFailedMultipartUploadsInBucket_loop s3Svc b (pre ++ None :: rest) s
  = (Panic, s1)
  /\ (forall u err w,
        s3_AbortMultipartUpload P s3Svc (abortInput b u) (world s1)
        = (inl err, w) ->
        s3.UploadId u = None \/ s3.Key u = None ->
        AbortFailedMultipartUploadsInBucket_loop s3Svc b
          (pre ++ Some u :: rest) s
        = (Panic,
           after s1 (EvAbortMultipartUpload s3Svc (abortInput b u)) w)).
Proof.
  intros Hpre. split.
  - rewrite (loop_app s3Svc b pre _ s s1 Hpre). reflexivity.
  - intros u err w Hcall Hnil.
    rewrite (loop_app s3Svc b pre _ s s1 Hpre), loop_cons, Hcall.
    destruct Hnil as [H|H]; rewrite H; [reflexivity|].
    destruct (s3.UploadId u); reflexivity.
Qed.

(** A run over one bucket sends requests for that bucket only, and what
    it adds to the listings of the log is its one listing. *)
Lemma bucket_reach (sess : Session P) (b : string) (names : list string)
    (s : State P) :
  In b names ->
  logs (bucket_request names) (AbortFailedMultipartUploadsInBucket sess b) s.
Proof.
  intros Hin.
  destruct (s3_ListMultipartUploads P (s3.New sess None) (listInput b)
              (world s)) as [[err|out] w] eqn:E.
  - exists [EvListMultipartUploads (s3.New sess None) (listInput b)].
    rewrite (bucket_list_err sess b s err w E). simpl.
    split; [reflexivity|]. constructor; [|constructor].
    exists b. auto.
  - unfold logs. rewrite (bucket_unfold sess b s out w E).
    destruct (loop_reach (s3.New sess None) b (s3.Uploads out)
                (after s (EvListMultipartUploads (s3.New sess None)
                            (listInput b)) w))
      as [evs [Ht HQ]].
    exists (EvListMultipartUploads (s3.New sess None) (listInput b) :: evs).
    rewrite Ht. simpl. rewrite <- app_assoc. split; [reflexivity|].
    constructor; [exists b; auto|].
    eapply Forall_impl; [|exact HQ].
    intros e [u [_ He]]. subst e. simpl. exists b. auto.
Qed.

Lemma in_bucketNamesOf (bk : s3.Bucket) (name : string)
    (rest : list (ptr s3.Bucket)) :
  s3.Name bk = Some name ->
  bucketNamesOf (@cons (ptr s3.Bucket) (Some bk) rest)
  = name :: bucketNamesOf rest.
Proof. intros H. destruct bk as [n c]. simpl in H. subst n. reflexivity. Qed.

Lemma bucketNamesOf_incl (b : ptr s3.Bucket) (rest : list (ptr s3.Bucket))
    (name : string) :
  In name (bucketNamesOf rest) -> In name (bucketNamesOf (b :: rest)).
Proof.
  intros H. destruct b as [[[n|] c]|]; simpl; auto.
Qed.

(** The loop over the buckets sends requests only for buckets it was
    given. *)
Lemma all_loop_reach (sess : Session P) (buckets : list (ptr s3.Bucket)) :
  forall s : State P,
    logs (bucket_request (bucketNamesOf buckets))
      (AbortFailedMultipartUploadsInAllBuckets_loop sess buckets) s.
Proof.
  induction buckets as [|bk buckets IH]; intros s.
  - exists []. simpl. rewrite app_nil_r. auto.
  - destruct bk as [bk|]; [|exists []; simpl; rewrite app_nil_r; auto].
    destruct (s3.Name bk) as [name|] eqn:En.
    + rewrite (in_bucketNamesOf bk name buckets En).
      unfold logs. simpl. unfold bind at 1. simpl. rewrite En.
      unfold bind at 1. simpl. unfold bind at 1.
      destruct (bucket_reach sess name (name :: bucketNamesOf buckets) s
                  (or_introl eq_refl)) as [evs [Ht HQ]].
      destruct (AbortFailedMultipartUploadsInBucket sess name s)
        as [[[err|]| | |] s1]; simpl in Ht |- *;
        try (exists evs; split; assumption).
      destruct (IH s1) as [evs' [Ht' HQ']].
      exists (evs ++ evs'). rewrite Ht', Ht, app_assoc.
      split; [reflexivity|]. apply Forall_app. split; [assumption|].
      eapply Forall_impl; [|exact HQ'].
      intros e He. destruct e; simpl in *; try contradiction;
        destruct He as [n [Hn Hi]]; exists n; split; auto.
    + exists []. simpl. unfold bind at 1. simpl. rewrite En.
      unfold bind at 1. simpl. rewrite app_nil_r. auto.
Qed.

(** When the loop over the buckets returns nil, every bucket was named and
    was listed once, in order. *)
Lemma all_loop_listings (sess : Session P) (buckets : list (ptr s3.Bucket)) :
  forall s s' : State P,
    AbortFailedMultipartUploadsInAllBuckets_loop sess buckets s
    = (Ret None, s') ->
    listings (trace s')
    = listings (trace s) ++ map listInput (bucketNamesOf buckets)
    /\ length (bucketNamesOf buckets) = length buckets.
Proof.
  induction buckets as [|bk buckets IH]; intros s s' H.
  - inversion H. simpl. rewrite app_nil_r. auto.
  - destruct bk as [bk|]; [|discriminate].
    simpl in H. unfold bind at 1 in H. simpl in H.
    destruct (s3.Name bk) as [name|] eqn:En; [|discriminate].
    simpl in H. unfold bind at 1 in H. simpl in H. unfold bind at 1 in H.
    pose proof (one_listing sess name s) as Hone.
    destruct (AbortFailedMultipartUploadsInBucket sess name s)
      as [[[err|]| | |] s1]; try discriminate.
    destruct (IH s1 s' H) as [Hl Hlen].
    rewrite (in_bucketNamesOf bk name buckets En). simpl in Hone |- *.
    rewrite Hl, Hone, <- app_assoc. simpl. split; [reflexivity|].
    rewrite Hlen. reflexivity.
Qed.

(** X8. When [AbortFailedMultipartUploadsInAllBuckets] returns nil, every
    entry of the ListBuckets response carried a name, and the uploads of
    every one of these buckets were listed, once each and in the order of
    the response. *)
Theorem X8_nil_means_every_bucket_was_listed (sess : Session P)
    (s s' : State P) (out : s3.ListBucketsOutput) (w : World P) :
  s3_ListBuckets P (s3.New sess None) (world s) = (inr out, w) ->
  AbortFailedMultipartUploadsInAllBuckets sess s = (Ret None, s') ->
  listings (trace s')
  = listings (trace s) ++ map listInput (bucketNamesOf (s3.Buckets out))
  /\ length (bucketNamesOf (s3.Buckets out)) = length (s3.Buckets out).
Proof.
  intros Hlist Hrun.
  unfold AbortFailedMultipartUploadsInAllBuckets in Hrun. cbv zeta in Hrun.
  rewrite (bind_call _ _ _ _ _ _ Hlist) in Hrun.
  destruct (all_loop_listings sess (s3.Buckets out) _ s' Hrun) as [Hl Hlen].
  split; [|assumption].
  rewrite Hl. simpl. rewrite listings_app. simpl. rewrite app_nil_r.
  reflexivity.
Qed.

(** X9. [AbortFailedMultipartUploadsInAllBuckets] stays within the account
    it was shown.  When ListBuckets fails it returns that error, wrapped,
    and has sent nothing else.  When ListBuckets succeeds, every later
    request is a listing of the uploads of a bucket named in the response
    (from its start) or an abort in a bucket named in the response. *)
Theorem X9_requests_stay_within_the_response (sess : Session P)
    (s : State P) :
  match s3_ListBuckets P (s3.New sess None) (world s) with
  | (inl err, w) =>
      AbortFailedMultipartUploadsInAllBuckets sess s
      = (Ret (Some (Errorf ("error listing buckets: " ++ Error err)%string)),
         after s (EvListBuckets (s3.New sess None)) w)
  | (inr out, w) =>
      exists evs,
        trace (snd (AbortFailedMultipartUploadsInAllBuckets sess s))
        = trace s ++ EvListBuckets (s3.New sess None) :: evs
        /\ Forall (bucket_request (bucketNamesOf (s3.Buckets out))) evs
  end.
Proof.
  destruct (s3_ListBuckets P (s3.New sess None) (world s))
    as [[err|out] w] eqn:E;
    unfold AbortFailedMultipartUploadsInAllBuckets; cbv zeta;
    rewrite (bind_call _ _ _ _ _ _ E); [reflexivity|].
  destruct (all_loop_reach sess (s3.Buckets out)
              (after s (EvListBuckets (s3.New sess None)) w))
    as [evs [Ht HQ]].
  exists evs. rewrite Ht. simpl. rewrite <- app_assoc.
  split; [reflexivity | assumption].
Qed.

End Reach.

(** X7 on the store: a nil entry in the listing, and an entry without a key
    whose abort the provider refuses. *)
Lemma X7_witness :
  AbortFailedMultipartUploadsInBucket_loop (P := Sim.sdk)
    (Examples.svc "default") "a" [None; Some Examples.up1]
    (Sim.start Examples.storeOK)
  = (Panic, Sim.start Examples.storeOK)
  /\ AbortFailedMultipartUploadsInBucket_loop (P := Sim.sdk)
       (Examples.svc "default") "a"
       [Some {| s3.Key := None; s3.UploadId := Some "id-9";
                s3.Initiated := None |};
        Some Examples.up1]
       (Sim.start Examples.storeOK)
     = (Panic,
        after (Sim.start Examples.storeOK)
          (EvAbortMultipartUpload (Examples.svc "default")
             (abortInput "a" {| s3.Key := None; s3.UploadId := Some "id-9";
                                s3.Initiated := None |}))
          Examples.storeOK).
Proof.
  split.
  - apply (proj1 (X7_loop_panics (P := Sim.sdk) (Examples.svc "default") "a"
                    [] [Some Examples.up1] (Sim.start Examples.storeOK)
                    (Sim.start Examples.storeOK) eq_refl)).
  - apply (proj2 (X7_loop_panics (P := Sim.sdk) (Examples.svc "default") "a"
                    [] [Some Examples.up1] (Sim.start Examples.storeOK)
                    (Sim.start Examples.storeOK) eq_refl)
             {| s3.Key := None; s3.UploadId := Some "id-9";
                s3.Initiated := None |}
             (LibErr "InvalidParameter" "missing field")
             Examples.storeOK).
    + reflexivity.
    + right. reflexivity.
Defined.

(** X8 on the store with one upload in each of the four buckets. *)
Lemma X8_witness :
  listings (trace (snd (AbortFailedMultipartUploadsInAllBuckets (P := Sim.sdk)
                          "default" (Sim.start Examples.storeOK))))
  = [listInput "a"; listInput "b"; listInput "c"; listInput "d"]
  /\ length (bucketNamesOf [Examples.bucket "a"; Examples.bucket "b";
                            Examples.bucket "c"; Examples.bucket "d"])
     = 4%nat.
Proof.
  apply (X8_nil_means_every_bucket_was_listed (P := Sim.sdk) "default"
           (Sim.start Examples.storeOK)
           (snd (AbortFailedMultipartUploadsInAllBuckets (P := Sim.sdk)
                   "default" (Sim.start Examples.storeOK)))
           {| s3.Buckets := [Examples.bucket "a"; Examples.bucket "b";
                             Examples.bucket "c"; Examples.bucket "d"] |}
           Examples.storeOK);
    vm_compute; reflexivity.
Defined.

(* ================================================================= *)
(** ** discover works for one profile and changes no upload *)

Section DiscoverProfile.

Context {P : SDK}.
Local Open Scope list_scope.

Lemma emits_logs {A : Type} (Q : Event P -> Prop) (c : M P A) (s : State P) :
  emits Q c s -> logs Q c s.
Proof. intros [_ H]. exact H. Qed.

Lemma emits_discover_loop (Q : Event P -> Prop) (sess : Session P)
    (buckets : list string) :
  (forall text, Q (Stdout text)) ->
  forall s, emits Q (discover_loop sess buckets) s.
Proof.
  intros H. induction buckets as [|b buckets IH]; intros s; simpl.
  - apply emits_ret.
  - apply emits_bind; [apply emits_fmt_Print; apply H|].
    intros _ s' _. apply IH.
Qed.

Lemma emits_discover_rest (pf : string) (s : State P) :
  pf = profileFlag (flags s) ->
  emits (discover_event pf) discover_rest s.
Proof.
  intros Hpf. unfold discover_rest.
  apply emits_getFlags. rewrite <- Hpf.
  apply emits_bind.
  { apply emits_GetCredentialsForProfile; simpl; auto. }
  intros [credErr|credentials] s1 _; [apply emits_fmt_Print; exact I|].
  apply emits_call; [reflexivity|].
  intros [err|sess] w _; [apply emits_fmt_Print; exact I|].
  apply emits_bind.
  { apply emits_GetBucketChoice; simpl; auto. }
  intros [err|bucket] s2 _; [apply emits_fmt_Print; exact I|].
  destruct (String.eqb bucket "ALL_BUCKETS").
  - apply emits_bind; [apply emits_ListS3Buckets; exact I|].
    intros [err|buckets] s3 _; [apply emits_fmt_Print; exact I|].
    apply emits_discover_loop. intros; exact I.
  - apply emits_fmt_Print. exact I.
Qed.

(** X10. [discover] never works for two profiles and never touches an
    upload.  With [pf] the value of [profileFlag] when [discover] ends (the
    flag given on the command line, or the profile the user picked when the
    flag was empty or ALL_PROFILES): no configuration is loaded but that of
    [pf] (of [default] when [pf] is empty), no session is created and no
    connection is opened but for [pf], and no listing of uploads and no
    abort is ever sent.  The other two flags are left as they were. *)
Theorem X10_discover_one_profile_no_upload_call (s : State P) :
  logs (discover_event (profileFlag (flags (snd (discover s))))) discover s
  /\ discoverFlag (flags (snd (discover s))) = discoverFlag (flags s)
  /\ helpFlag (flags (snd (discover s))) = helpFlag (flags s).
Proof.
  unfold logs, discover.
  change (bind getFlags ?k s) with (k (flags s) s). cbv beta.
  destruct (String.eqb (profileFlag (flags s)) ""
            || String.eqb (profileFlag (flags s)) allProfiles).
  - unfold bind, setFlags, fmt_Print, emit.
    destruct (emits_GetProfileChoice (fun _ => True) s
                (fun _ => I) (fun _ _ => I)) as [Hf [evs [Ht _]]].
    assert (HQ : forall pf, Forall (discover_event pf) evs).
    { intros pf.
      destruct (emits_GetProfileChoice (discover_event pf) s
                  (fun _ => I) (fun _ _ => I)) as [_ [evs' [Ht' HQ']]].
      rewrite Ht in Ht'. apply app_inv_head in Ht'. subst evs'. exact HQ'. }
    destruct (GetProfileChoice s) as [[[err|profile]| | |] s1];
      cbn [fst snd flags trace world] in Hf, Ht |- *;
      try (rewrite Hf; split; [exists evs; split; [exact Ht|apply HQ]|];
           split; reflexivity).
    + split; [|rewrite Hf; split; reflexivity].
      exists (evs ++ [Stdout ("Error selecting profile: " ++ Error err
                              ++ LF)%string]).
      rewrite Ht, app_assoc. split; [reflexivity|].
      apply Forall_app. split; [apply HQ|]. constructor; [exact I|constructor].
    + destruct (emits_discover_rest profile
                  {| world := world s1;
                     flags := {| discoverFlag := discoverFlag (flags s);
                                 profileFlag := profile;
                                 helpFlag := helpFlag (flags s) |};
                     trace := trace s1 |} eq_refl)
        as [Hf' [evs' [Ht' HQ']]].
      cbn [fst snd flags trace world] in Hf', Ht'. rewrite Hf'.
      cbn [discoverFlag profileFlag helpFlag].
      split; [|split; reflexivity].
      exists (evs ++ evs'). rewrite Ht', Ht, app_assoc.
      split; [reflexivity|]. apply Forall_app. split; [apply HQ|exact HQ'].
  - destruct (emits_discover_rest (profileFlag (flags s)) s eq_refl)
      as [Hf [evs [Ht HQ]]].
    rewrite Hf. split; [|split; reflexivity].
    exists evs. split; assumption.
Qed.

End DiscoverProfile.

(* ================================================================= *)
(** ** How the menu ends *)

Section MenuEnds.

Context {P : SDK}.
Local Open Scope list_scope.

Lemma announced_bind {A : Type} (c : M P A) (k : A -> M P ctl) (s : State P) :
  (forall a s1, c s = (Ret a, s1) -> announced (k a) s1) ->
  announced (bind c k) s.
Proof.
  intros H s' E. unfold bind in E.
  destruct (c s) as [[a| | |] s1] eqn:Ec; try discriminate.
  exact (H a s1 eq_refl s' E).
Qed.

Lemma announced_Continue (s : State P) : announced (ret Continue) s.
Proof. intros s' E. discriminate. Qed.

Lemma announced_print_Continue (text : string) (s : State P) :
  announced (fmt_Print text ;;; ret Continue) s.
Proof. intros s' E. discriminate. Qed.

Lemma announced_print_Return (text : string) (s : State P) :
  menu_exit_text text ->
  announced (fmt_Print text ;;; ret Return) s.
Proof.
  intros H s' E. inversion E; subst. exists (trace s), text. auto.
Qed.

Lemma announced_menu_body (s : State P) : announced menu_body s.
Proof.
  unfold menu_body. apply announced_bind. intros [err|[i result]] s1 _.
  { apply announced_print_Return. left. exists err. reflexivity. }
  destruct (String.eqb result "Select the profile and bucket to expire").
  { unfold menu_case_bucket. apply announced_bind.
    intros [err|profile] s2 _; [apply announced_print_Continue|].
    unfold menu_case_bucket_rest. apply announced_bind. intros f s3 _.
    apply announced_bind. intros [credErr|credentials] s4 _.
    { apply announced_print_Return. right. right. left.
      exists (profileFlag f), credErr. reflexivity. }
    apply announced_bind. intros [err|sess] s5 _.
    { apply announced_print_Return. right. right. right.
      exists err. reflexivity. }
    apply announced_bind.
    intros [err|bucket] s6 _; [apply announced_print_Continue|].
    apply announced_bind. intros _ s7 _.
    apply announced_bind.
    intros [err|] s8 _;
      [apply announced_print_Continue | apply announced_Continue]. }
  destruct (String.eqb result "Select the profile and all buckets to expire").
  { unfold menu_case_all_buckets. apply announced_bind.
    intros [err|profile] s2 _; apply announced_print_Continue. }
  destruct (String.eqb result "Expire all profiles and all buckets");
    [apply announced_Continue|].
  destruct (String.eqb result "Exit"); [|apply announced_Continue].
  apply announced_print_Return. right. left. reflexivity.
Qed.

(** X12. The menu never ends silently.  Whenever [menu] returns, the last
    thing it did was print one of four messages: that the prompt failed,
    "Exiting...", that the credentials could not be fetched, or that the
    session could not be created.  (A failure to pick a profile or a
    bucket, or an error while expiring the uploads, does not end the menu:
    those go back to the prompt.) *)
Theorem X12_menu_returns_announced (fuel : nat) :
  forall s s' : State P,
    menu fuel s = (Ret tt, s') ->
    exists pre text,
      trace s' = pre ++ [Stdout text] /\ menu_exit_text text.
Proof.
  induction fuel as [|fuel IH]; intros s s' H; [discriminate|].
  simpl in H. unfold bind in H.
  destruct (menu_body s) as [[[|]| | |] s1] eqn:E; try discriminate.
  - exact (IH s1 s' H).
  - inversion H; subst. exact (announced_menu_body s s' E).
Qed.

(** X15. Only the first menu entry expires anything.  When the answer to
    the main prompt is not "Select the profile and bucket to expire", one
    pass through the menu sends no listing of uploads and no abort: the
    entries "Select the profile and all buckets to expire" and "Expire all
    profiles and all buckets" leave every upload as it is. *)
Theorem X15_other_entries_expire_nothing (s : State P)
    (r : error + nat * string) (w : World P) :
  promptui_Run P "Please choose an option" choices (world s) = (r, w) ->
  (forall i, r <> inr (i, "Select the profile and bucket to expire"%string)) ->
  logs no_upload_call menu_body s.
Proof.
  intros Hp Hr. apply emits_logs. unfold menu_body.
  apply emits_call; [exact I|].
  intros r' w' E. rewrite Hp in E. inversion E; subst r' w'.
  destruct r as [err|[i result]].
  { apply emits_bind; [apply emits_fmt_Print; exact I|].
    intros; apply emits_ret. }
  destruct (String.eqb_spec result "Select the profile and bucket to expire")
    as [->|_]; [exfalso; exact (Hr i eq_refl)|].
  destruct (String.eqb result "Select the profile and all buckets to expire");
    [apply emits_menu_case_all_buckets|].
  destruct (String.eqb result "Expire all profiles and all buckets");
    [apply emits_ret|].
  destruct (String.eqb result "Exit"); [|apply emits_ret].
  apply emits_bind; [apply emits_fmt_Print; exact I|].
  intros; apply emits_ret.
Qed.

End MenuEnds.

(** X12 on the store: the user picks "Exit" at once. *)
Lemma X12_witness :
  exists pre text,
    trace (snd (menu (P := Sim.sdk) 1
                  (Sim.start (Sim.with_answers Examples.storeOK ["Exit"]))))
    = (pre ++ [Stdout text])%list
    /\ menu_exit_text text.
Proof.
  apply (X12_menu_returns_announced (P := Sim.sdk) 1
           (Sim.start (Sim.with_answers Examples.storeOK ["Exit"]))
           (snd (menu (P := Sim.sdk) 1
                   (Sim.start (Sim.with_answers Examples.storeOK ["Exit"]))))).
  vm_compute. reflexivity.
Defined.

(** X15 on the store: the user picks "Expire all profiles and all
    buckets". *)
Lemma X15_witness :
  logs (P := Sim.sdk) no_upload_call menu_body
    (Sim.start (Sim.with_answers Examples.storeOK
                  ["Expire all profiles and all buckets"])).
Proof.
  apply (X15_other_entries_expire_nothing (P := Sim.sdk)
           (Sim.start (Sim.with_answers Examples.storeOK
                         ["Expire all profiles and all buckets"]))
           (inr (2%nat, "Expire all profiles and all buckets"))
           (Sim.with_answers Examples.storeOK [])).
  - reflexivity.
  - intros i H. discriminate H.
Defined.

(* ================================================================= *)
(** ** The exit status *)

Section ExitStatus.

Context {P : SDK}.
Local Open Scope list_scope.

Lemma ne_ret {A : Type} (a : A) (s : State P) : never_exits (ret a) s.
Proof. intros code H. discriminate. Qed.

Lemma ne_panic {A : Type} (s : State P) : never_exits (@panic P A) s.
Proof. intros code H. discriminate. Qed.

Lemma ne_call {A : Type} (e : Event P) (op : World P -> A * World P)
    (s : State P) : never_exits (call e op) s.
Proof.
  intros code H. unfold call in H. destruct (op (world s)). discriminate.
Qed.

Lemma ne_fmt_Print (text : string) (s : State P) :
  never_exits (fmt_Print text) s.
Proof. intros code H. discriminate. Qed.

Lemma ne_getFlags (s : State P) : never_exits (@getFlags P) s.
Proof. intros code H. discriminate. Qed.

Lemma ne_setFlags (f : Flags) (s : State P) : never_exits (setFlags f) s.
Proof. intros code H. discriminate. Qed.

Lemma ne_deref {A : Type} (p : ptr A) (s : State P) : never_exits (deref p) s.
Proof. destruct p; [apply ne_ret | apply ne_panic]. Qed.

Lemma ne_bind {A B : Type} (c : M P A) (k : A -> M P B) (s : State P) :
  never_exits c s ->
  (forall a s1, c s = (Ret a, s1) -> never_exits (k a) s1) ->
  never_exits (bind c k) s.
Proof.
  intros Hc Hk code H. unfold bind in H.
  destruct (c s) as [[a| | |] s1] eqn:E; simpl in H; try discriminate.
  - exact (Hk a s1 eq_refl code H).
  - apply (Hc code0). rewrite E. simpl. congruence.
Qed.

(** One step of a proof that a function does not end the process. *)
Ltac ne_step :=
  first
    [ apply ne_ret | apply ne_panic | apply ne_call | apply ne_fmt_Print
    | apply ne_getFlags | apply ne_setFlags | apply ne_deref
    | assumption
    | apply ne_bind; [|intros ? ? _]
    | match goal with
      | |- never_exits (match ?x with _ => _ end) _ => destruct x
      end ].

Lemma ne_GetCredentialsForProfile (profile : string) (s : State P) :
  never_exits (GetCredentialsForProfile profile) s.
Proof.
  unfold GetCredentialsForProfile, LoadAWSConfigForProfile. cbv zeta.
  repeat ne_step.
Qed.

Lemma ne_ListS3Buckets_loop (bs : list (ptr s3.Bucket)) :
  forall i acc (s : State P), never_exits (ListS3Buckets_loop bs i acc) s.
Proof.
  induction bs as [|b bs IH]; intros i acc s; simpl.
  - apply ne_ret.
  - apply ne_bind; [apply ne_deref|]. intros b' s1 _.
    apply ne_bind; [apply ne_deref|]. intros name s2 _. apply IH.
Qed.

Lemma ne_ListS3Buckets (sess : Session P) (s : State P) :
  never_exits (ListS3Buckets sess) s.
Proof.
  unfold ListS3Buckets. cbv zeta.
  apply ne_bind; [apply ne_call|]. intros [err|result] s1 _; [apply ne_ret|].
  apply ne_bind; [apply ne_ListS3Buckets_loop|]. intros; apply ne_ret.
Qed.

Lemma ne_GetProfileChoice (s : State P) : never_exits GetProfileChoice s.
Proof.
  unfold GetProfileChoice, RetrieveConfiguredProfiles, ReadAWSConfigFile.
  apply ne_bind.
  - apply ne_bind.
    + apply ne_bind; [intros code H; discriminate|].
      intros home s1 _. cbv zeta. repeat ne_step.
    + intros [err|profiles] s1 _; apply ne_ret.
  - intros [err|profiles] s1 _; repeat ne_step.
Qed.

Lemma ne_GetBucketChoice (profile : string) (s : State P) :
  never_exits (GetBucketChoice profile) s.
Proof.
  unfold GetBucketChoice, EstablishConnectionUsingProfile.
  apply ne_bind; [repeat ne_step|].
  intros [err|sess] s1 _; [apply ne_ret|].
  apply ne_bind; [apply ne_ListS3Buckets|].
  intros [err|buckets] s2 _; repeat ne_step.
Qed.

Lemma ne_bucket_loop (s3Svc : S3 P) (b : string)
    (uploads : list (ptr s3.MultipartUpload)) :
  forall s, never_exits (AbortFailedMultipartUploadsInBucket_loop s3Svc b
                           uploads) s.
Proof.
  induction uploads as [|u uploads IH]; intros s; simpl.
  - apply ne_ret.
  - apply ne_bind; [apply ne_deref|]. intros u' s1 _.
    apply ne_bind; [apply ne_call|]. intros [err|[]] s2 _; [|apply IH].
    repeat ne_step.
Qed.

Lemma ne_AbortFailedMultipartUploadsInBucket (sess : Session P) (b : string)
    (s : State P) :
  never_exits (AbortFailedMultipartUploadsInBucket sess b) s.
Proof.
  unfold AbortFailedMultipartUploadsInBucket. cbv zeta.
  apply ne_bind; [apply ne_call|].
  intros [err|out] s1 _; [apply ne_ret | apply ne_bucket_loop].
Qed.

Lemma ne_discover_loop (sess : Session P) (buckets : list string) :
  forall s, never_exits (discover_loop sess buckets) s.
Proof.
  induction buckets as [|b buckets IH]; intros s; simpl.
  - apply ne_ret.
  - apply ne_bind; [apply ne_fmt_Print|]. intros _ s1 _. apply IH.
Qed.

Lemma ne_discover_rest (s : State P) : never_exits discover_rest s.
Proof.
  unfold discover_rest.
  apply ne_bind; [apply ne_getFlags|]. intros f s1 _.
  apply ne_bind; [apply ne_GetCredentialsForProfile|].
  intros [credErr|credentials] s2 _; [apply ne_fmt_Print|].
  apply ne_bind; [apply ne_call|].
  intros [err|sess] s3 _; [apply ne_fmt_Print|].
  apply ne_bind; [apply ne_GetBucketChoice|].
  intros [err|bucket] s4 _; [apply ne_fmt_Print|].
  destruct (String.eqb bucket "ALL_BUCKETS"); [|apply ne_fmt_Print].
  apply ne_bind; [apply ne_ListS3Buckets|].
  intros [err|buckets] s5 _; [apply ne_fmt_Print | apply ne_discover_loop].
Qed.

Lemma ne_discover (s : State P) : never_exits discover s.
Proof.
  unfold discover.
  apply ne_bind; [apply ne_getFlags|]. intros f s1 _.
  destruct (_ || _); [|apply ne_discover_rest].
  apply ne_bind; [apply ne_GetProfileChoice|].
  intros [err|profile] s2 _; [apply ne_fmt_Print|].
  apply ne_bind; [apply ne_setFlags|]. intros _ s3 _. apply ne_discover_rest.
Qed.

Lemma ne_menu_body (s : State P) : never_exits menu_body s.
Proof.
  unfold menu_body.
  apply ne_bind; [apply ne_call|]. intros [err|[i result]] s1 _.
  { repeat ne_step. }
  destruct (String.eqb result "Select the profile and bucket to expire").
  { unfold menu_case_bucket.
    apply ne_bind; [apply ne_GetProfileChoice|].
    intros [err|profile] s2 _; [repeat ne_step|].
    unfold menu_case_bucket_rest.
    apply ne_bind; [apply ne_getFlags|]. intros f s3 _.
    apply ne_bind; [apply ne_GetCredentialsForProfile|].
    intros [credErr|credentials] s4 _; [repeat ne_step|].
    apply ne_bind; [apply ne_call|].
    intros [err|sess] s5 _; [repeat ne_step|].
    apply ne_bind; [apply ne_GetBucketChoice|].
    intros [err|bucket] s6 _; [repeat ne_step|].
    apply ne_bind; [apply ne_fmt_Print|]. intros _ s7 _.
    apply ne_bind; [apply ne_AbortFailedMultipartUploadsInBucket|].
    intros [err|] s8 _; repeat ne_step. }
  destruct (String.eqb result "Select the profile and all buckets to expire").
  { unfold menu_case_all_buckets.
    apply ne_bind; [apply ne_GetProfileChoice|].
    intros [err|profile] s2 _; repeat ne_step. }
  destruct (String.eqb result "Expire all profiles and all buckets");
    [apply ne_ret|].
  destruct (String.eqb result "Exit"); repeat ne_step.
Qed.

Lemma ne_menu (fuel : nat) : forall s : State P, never_exits (menu fuel) s.
Proof.
  induction fuel as [|fuel IH]; intros s; simpl.
  - intros code H. discriminate.
  - apply ne_bind; [apply ne_menu_body|].
    intros [|] s1 _; [apply IH | apply ne_ret].
Qed.

Lemma ne_rootCmd_Run (fuel : nat) (s : State P) :
  never_exits (rootCmd_Run fuel) s.
Proof.
  unfold rootCmd_Run.
  apply ne_bind; [apply ne_getFlags|]. intros f s1 _.
  destruct (helpFlag f); [intros code H; discriminate|].
  destruct (discoverFlag f); [apply ne_discover | apply ne_menu].
Qed.

(** X13. [os.Exit] is reached in one case only.  When a run of [main]
    ends in [os.Exit], the status is 1, the flags could not be read from
    the command line, and all the program did was print that error: nothing
    was asked of the user or of the provider.  So no error returned by the
    provider, the prompt or the configuration file while discovering or
    expiring uploads makes the program call [os.Exit]; such errors are
    printed and the run goes on or returns.  (A run may still end in a
    nil-pointer panic, which is not a call of [os.Exit].) *)
Theorem X13_exit_status (fuel : nat) (args : list string) (s : State P)
    (code : Z) :
  fst (main fuel args s) = Exit code ->
  code = 1%Z
  /\ exists err,
       cobra_ParseFlags P (tl args) = inl err
       /\ snd (main fuel args s)
          = {| world := world s; flags := flags s;
               trace := trace s ++ [Stdout (Error err ++ LF)%string] |}.
Proof.
  unfold main. destruct (_ && _); [discriminate|].
  unfold main_execute, rootCmd_Execute.
  destruct (cobra_ParseFlags P (tl args)) as [err|f].
  - intros H. inversion H. split; [reflexivity|].
    exists err. split; reflexivity.
  - intros H. exfalso.
    assert (Hne : never_exits
                    (setFlags f ;;; rootCmd_Run fuel ;;; ret (@None error)) s).
    { apply ne_bind; [apply ne_setFlags|]. intros _ s1 _.
      apply ne_bind; [apply ne_rootCmd_Run|]. intros; apply ne_ret. }
    unfold bind at 1 in H.
    destruct ((setFlags f ;;; rootCmd_Run fuel ;;; ret (@None error)) s)
      as [[[e|]| | |] s1] eqn:E; simpl in H; try discriminate.
    + unfold bind in E. simpl in E.
      destruct (rootCmd_Run fuel _) as [[[]| | |] s2]; discriminate.
    + apply (Hne code0). rewrite E. reflexivity.
Qed.

(** X14. The guard of [main] looks for the two exact strings only.  With
    no argument at all, or with a first argument that is neither
    [--profile] nor [-p] (for example [--profile=prod], or [-d] followed by
    [-p]), nothing is rejected by the guard and [main] goes on to execute
    the command. *)
Theorem X14_guard_is_exact (fuel : nat) (args : list string) (s : State P) :
  nth_error args 1 <> Some "--profile"%string ->
  nth_error args 1 <> Some "-p"%string ->
  main fuel args s = main_execute fuel args s.
Proof.
  intros H1 H2. unfold main.
  destruct args as [|a0 [|a1 rest]]; try reflexivity.
  simpl in H1, H2. simpl.
  destruct (String.eqb_spec a1 "--profile") as [->|_]; [congruence|].
  destruct (String.eqb_spec a1 "-p") as [->|_]; [congruence|].
  reflexivity.
Qed.

End ExitStatus.

(** X13 on the store: a flag cobra does not know. *)
Lemma X13_witness :
  1%Z = 1%Z
  /\ exists err,
       Sim.parseFlags ["--bogus"] initFlags = inl err
       /\ snd (main (P := Sim.sdk) 3 ["s3_mp_janitor"; "--bogus"]
                 (Sim.start Examples.storeOK))
          = Build_State Sim.sdk Examples.storeOK initFlags
              [Stdout (Error err ++ LF)].
Proof.
  apply (X13_exit_status (P := Sim.sdk) 3 ["s3_mp_janitor"; "--bogus"]
           (Sim.start Examples.storeOK) 1%Z).
  reflexivity.
Defined.

(** X14 on the store: [--profile=prod] alone passes the guard. *)
Lemma X14_witness :
  main (P := Sim.sdk) 3 ["s3_mp_janitor"; "--profile=prod"]
    (Sim.start Examples.storeOK)
  = main_execute (P := Sim.sdk) 3 ["s3_mp_janitor"; "--profile=prod"]
      (Sim.start Examples.storeOK).
Proof.
  apply (X14_guard_is_exact (P := Sim.sdk) 3
           ["s3_mp_janitor"; "--profile=prod"] (Sim.start Examples.storeOK));
    simpl; discriminate.
Defined.

(* ================================================================= *)
(** ** Only the menu expires uploads *)

Section ReadOnlyModes.

Context {P : SDK}.
Local Open Scope list_scope.

Lemma discover_event_no_upload_call (pf : string) (e : Event P) :
  discover_event pf e -> no_upload_call e.
Proof. destruct e; simpl; auto. Qed.

Lemma logs_bind {A B : Type} (Q : Event P -> Prop) (c : M P A)
    (k : A -> M P B) (s : State P) :
  logs Q c s ->
  (forall a s1, c s = (Ret a, s1) -> logs Q (k a) s1) ->
  logs Q (bind c k) s.
Proof.
  intros [evs [Ht HQ]] Hk. unfold logs, bind in *.
  destruct (c s) as [[a| | |] s1] eqn:E; simpl in *;
    try solve [exists evs; auto].
  destruct (Hk a s1 eq_refl) as [evs' [Ht' HQ']].
  exists (evs ++ evs'). rewrite Ht', Ht, app_assoc. split; [reflexivity|].
  apply Forall_app; auto.
Qed.

Lemma logs_nothing {A : Type} (Q : Event P -> Prop) (c : M P A) (s : State P) :
  trace (snd (c s)) = trace s -> logs Q c s.
Proof. intros H. exists []. rewrite app_nil_r. auto. Qed.

Lemma discover_no_upload_call (s : State P) : logs no_upload_call discover s.
Proof.
  unfold discover.
  apply logs_bind; [apply logs_nothing; reflexivity|]. intros f s1 _.
  assert (Hrest : forall s2 : State P,
             logs no_upload_call discover_rest s2).
  { intros s2. apply emits_logs.
    eapply emits_weaken;
      [|apply (emits_discover_rest (profileFlag (flags s2)) s2 eq_refl)].
    apply discover_event_no_upload_call. }
  destruct (_ || _); [|apply Hrest].
  apply logs_bind.
  { apply emits_logs. apply emits_GetProfileChoice; intros; exact I. }
  intros [err|profile] s2 _.
  - apply emits_logs. apply emits_fmt_Print. exact I.
  - apply logs_bind; [apply logs_nothing; reflexivity|].
    intros _ s3 _. apply Hrest.
Qed.

(** X16. Only the menu can expire uploads.  Unless the command line was
    read without error and asks neither for help nor for discovery (which
    is when the menu runs), a run of [main] sends no listing of uploads and
    no abort: the guard's refusal, an unreadable command line, [--help] and
    [--discover] all leave every upload as it is. *)
Theorem X16_only_the_menu_expires (fuel : nat) (args : list string)
    (s : State P) :
  (forall f, cobra_ParseFlags P (tl args) = inr f ->
             helpFlag f = true \/ discoverFlag f = true) ->
  logs no_upload_call (main fuel args) s.
Proof.
  intros H. unfold main.
  destruct (_ && _).
  { apply emits_logs. apply emits_fmt_Print. exact I. }
  unfold main_execute, rootCmd_Execute.
  destruct (cobra_ParseFlags P (tl args)) as [err|f] eqn:E.
  - apply logs_bind; [apply logs_nothing; reflexivity|].
    intros e s1 Hr. inversion Hr; subst.
    apply logs_bind.
    + apply emits_logs. apply emits_fmt_Print. exact I.
    + intros _ s2 _. apply logs_nothing. reflexivity.
  - apply logs_bind.
    + apply logs_bind; [apply logs_nothing; reflexivity|].
      intros u s1 Hs. inversion Hs; subst.
      apply logs_bind; [|intros; apply logs_nothing; reflexivity].
      unfold rootCmd_Run.
      apply logs_bind; [apply logs_nothing; reflexivity|].
      intros f' s2 Hf. inversion Hf; subst. cbn [flags].
      destruct (helpFlag f') eqn:Hh.
      * exists [EvHelp]. simpl. split; [reflexivity|].
        constructor; [exact I|constructor].
      * destruct (discoverFlag f') eqn:Hd;
          [apply discover_no_upload_call|].
        destruct (H f' eq_refl); congruence.
    + intros [e|] s1 _.
      * apply logs_bind.
        -- apply emits_logs. apply emits_fmt_Print. exact I.
        -- intros _ s2 _. apply logs_nothing. reflexivity.
      * apply logs_nothing. reflexivity.
Qed.

End ReadOnlyModes.

(** X16 on the store: [--discover --profile prod] with the user picking
    bucket [p], whose upload stays in progress. *)
Lemma X16_witness :
  logs (P := Sim.sdk) no_upload_call (main 3 Examples.argsDiscoverFirst)
    (Sim.start (Sim.with_answers Examples.storeMenu ["p"])).
Proof.
  apply (X16_only_the_menu_expires (P := Sim.sdk) 3
           Examples.argsDiscoverFirst
           (Sim.start (Sim.with_answers Examples.storeMenu ["p"]))).
  intros f H. vm_compute in H. inversion H. right. reflexivity.
Defined.

(* ================================================================= *)
(** ** A second run aborts what its own listing returns *)

Section SecondRun.

Context {P : SDK}.
Local Open Scope list_scope.

Lemma in_aborts (input : s3.AbortMultipartUploadInput)
    (tr : list (Event P)) :
  In input (aborts tr) ->
  exists svc, In (EvAbortMultipartUpload svc input) tr.
Proof.
  induction tr as [|e tr IH]; simpl; [contradiction|].
  destruct e; simpl; intros H;
    try (destruct (IH H) as [svc' Hin]; exists svc'; right; exact Hin).
  destruct H as [->|H].
  - exists svc. left. reflexivity.
  - destruct (IH H) as [svc' Hin]. exists svc'. right. exact Hin.
Qed.

(** C6, amended.  The function keeps no record of an earlier run: a second
    run over the bucket, started where the first one ended, sends its own
    listing request and after it only abort requests, each for an entry of
    the page the provider returned to that second listing.  So an upload
    aborted by the first run is aborted a second time only if the
    provider's listing still returns it, and never once the listing has
    dropped it.  A not-found answer to an abort request is returned as an
    error, not recorded as a success. *)
Theorem C6_second_abort_only_if_listed_again (sess : Session P) (b : string)
    (s : State P) :
  (exists evs2,
     trace (snd (AbortFailedMultipartUploadsInBucket sess b
                   (snd (AbortFailedMultipartUploadsInBucket sess b s))))
     = trace (snd (AbortFailedMultipartUploadsInBucket sess b s))
       ++ EvListMultipartUploads (s3.New sess None) (listInput b) :: evs2
     /\ Forall abort_call evs2
     /\ forall input,
          In input (aborts evs2) ->
          exists out w u,
            s3_ListMultipartUploads P (s3.New sess None) (listInput b)
              (world (snd (AbortFailedMultipartUploadsInBucket sess b s)))
            = (inr out, w)
            /\ In (Some u) (s3.Uploads out)
            /\ input = abortInput b u)
  /\ (forall (s3Svc : S3 P) (b' : string) (u : s3.MultipartUpload)
             (rest : list (ptr s3.MultipartUpload)) (s' : State P)
             (w : World P) (message id key : string),
        s3_AbortMultipartUpload P s3Svc (abortInput b' u) (world s')
        = (inl (LibErr "NoSuchUpload" message), w) ->
        s3.UploadId u = Some id ->
        s3.Key u = Some key ->
        AbortFailedMultipartUploadsInBucket_loop s3Svc b' (Some u :: rest) s'
        = (Ret (Some (abortFailure id key (LibErr "NoSuchUpload" message))),
           after s' (EvAbortMultipartUpload s3Svc (abortInput b' u)) w)).
Proof.
  split.
  - set (s1 := snd (AbortFailedMultipartUploadsInBucket sess b s)).
    destruct (s3_ListMultipartUploads P (s3.New sess None) (listInput b)
                (world s1)) as [[err|out] w] eqn:E.
    + exists []. rewrite (bucket_list_err sess b s1 err w E). simpl.
      split; [reflexivity|]. split; [constructor|]. intros input [].
    + rewrite (bucket_unfold sess b s1 out w E).
      destruct (loop_reach (s3.New sess None) b (s3.Uploads out)
                  (after s1 (EvListMultipartUploads (s3.New sess None)
                               (listInput b)) w))
        as [evs [Ht HQ]].
      exists evs. rewrite Ht. simpl. rewrite <- app_assoc.
      split; [reflexivity|]. split.
      * eapply Forall_impl; [|exact HQ].
        intros e [u [_ ->]]. exact I.
      * intros input Hin. destruct (in_aborts input evs Hin) as [svc Hev].
        rewrite Forall_forall in HQ.
        destruct (HQ _ Hev) as [u [Hu He]]. inversion He; subst.
        exists out, w, u. auto.
  - intros s3Svc b' u rest s' w message id key Hcall Hid Hkey.
    apply loop_step_err; assumption.
Qed.

End SecondRun.

(** C6 on the store whose listings lag: the second run sends one abort
    request, for the upload the second listing still showed; and the
    not-found answer it gets is returned as an error. *)
Lemma C6_witness :
  (exists evs2,
     trace (snd (AbortFailedMultipartUploadsInBucket (P := Sim.sdk)
                   "default" "a"
                   (snd (AbortFailedMultipartUploadsInBucket (P := Sim.sdk)
                           "default" "a" (Sim.start Examples.storeLagging)))))
     = (trace (snd (AbortFailedMultipartUploadsInBucket (P := Sim.sdk)
                      "default" "a" (Sim.start Examples.storeLagging)))
        ++ EvListMultipartUploads (Examples.svc "default") (listInput "a")
           :: evs2)%list
     /\ Forall (abort_call (P := Sim.sdk)) evs2
     /\ forall input,
          In input (aborts evs2) ->
          exists out w u,
            Sim.listMultipartUploads (Examples.svc "default") (listInput "a")
              (world (snd (AbortFailedMultipartUploadsInBucket (P := Sim.sdk)
                             "default" "a"
                             (Sim.start Examples.storeLagging))))
            = (inr out, w)
            /\ In (Some u) (s3.Uploads out)
            /\ input = abortInput "a" u)
  /\ AbortFailedMultipartUploadsInBucket_loop (P := Sim.sdk)
       (Examples.svc "default") "a" [Some Examples.up1]
       (snd (AbortFailedMultipartUploadsInBucket (P := Sim.sdk) "default" "a"
               (Sim.start Examples.storeLagging)))
     = (Ret (Some (abortFailure "id-1" "k1"
                     (LibErr "NoSuchUpload"
                        "The specified upload does not exist."))),
        after (snd (AbortFailedMultipartUploadsInBucket (P := Sim.sdk)
                      "default" "a" (Sim.start Examples.storeLagging)))
          (EvAbortMultipartUpload (Examples.svc "default")
             (abortInput "a" Examples.up1))
          (Examples.store [] [("a", Examples.up1)] true [] 1000 [] [])).
Proof.
  split.
  - exact (proj1 (C6_second_abort_only_if_listed_again (P := Sim.sdk)
                    "default" "a" (Sim.start Examples.storeLagging))).
  - apply (proj2 (C6_second_abort_only_if_listed_again (P := Sim.sdk)
                    "default" "a" (Sim.start Examples.storeLagging))
             (Examples.svc "default") "a" Examples.up1 []
             (snd (AbortFailedMultipartUploadsInBucket (P := Sim.sdk)
                     "default" "a" (Sim.start Examples.storeLagging)))
             (Examples.store [] [("a", Examples.up1)] true [] 1000 [] [])
             "The specified upload does not exist." "id-1" "k1");
      reflexivity.
Defined.

(* ================================================================= *)
(** ** The session of the first menu entry *)

Section MenuSession.

Context {P : SDK}.
Local Open Scope list_scope.

(** What one run over a bucket adds to the log: its listing request, then
    abort requests through the same client and in the same bucket. *)
Lemma bucket_events (sess : Session P) (b : string) (s : State P) :
  exists evs,
    trace (snd (AbortFailedMultipartUploadsInBucket sess b s))
    = trace s ++ EvListMultipartUploads (s3.New sess None) (listInput b) :: evs
    /\ Forall (fun e => exists u,
                 e = EvAbortMultipartUpload (s3.New sess None)
                       (abortInput b u))
         evs.
Proof.
  destruct (s3_ListMultipartUploads P (s3.New sess None) (listInput b)
              (world s)) as [[err|out] w] eqn:E.
  - exists []. rewrite (bucket_list_err sess b s err w E). simpl. auto.
  - rewrite (bucket_unfold sess b s out w E).
    destruct (loop_reach (s3.New sess None) b (s3.Uploads out)
                (after s (EvListMultipartUploads (s3.New sess None)
                            (listInput b)) w))
      as [evs [Ht HQ]].
    exists evs. rewrite Ht. simpl. rewrite <- app_assoc.
    split; [reflexivity|].
    eapply Forall_impl; [|exact HQ].
    intros e [u [_ He]]. exists u. exact He.
Qed.

(** C9. In the menu entry "Select the profile and bucket to expire", once
    the user has picked [profile]: the configuration is loaded for the
    global [profileFlag] (for [default] when it is empty), the credentials
    retrieved from it are given to [CreateAWSSessionWithCredentials]
    together with [profileFlag], and the session [sess] that call returns
    is the one the uploads are expired with: the rest of the entry is
    [AbortFailedMultipartUploadsInBucket sess bucket], so its listing and
    every abort go through the client made of [sess].  The picked
    [profile] is used for the bucket choice only.  The menu never assigns
    [profileFlag], so it holds what the command line gave it (the empty
    string by default). *)
Theorem C9_menu_session_comes_from_profileFlag (s s1 s4 : State P)
    (profile bucket : string) (cfg : Config P) (creds : Credentials P)
    (sess : Session P) (w1 w2 w3 : World P) :
  GetProfileChoice s = (Ret (inr profile), s1) ->
  config_LoadDefaultConfig P (loadedProfile (profileFlag (flags s)))
    (world s1) = (inr cfg, w1) ->
  Credentials_Retrieve P cfg w1 = (inr creds, w2) ->
  CreateAWSSessionWithCredentials P (profileFlag (flags s)) creds w2
  = (inr sess, w3) ->
  GetBucketChoice profile
    (after (after (after s1 (EvLoadDefaultConfig
                               (loadedProfile (profileFlag (flags s)))) w1)
              (EvRetrieve cfg) w2)
       (EvCreateSession (profileFlag (flags s)) creds) w3)
  = (Ret (inr bucket), s4) ->
  menu_case_bucket s
  = (err <- AbortFailedMultipartUploadsInBucket sess bucket ;;
     match err with
     | Some err =>
         fmt_Print ("Error occurred expiring multipart uploads in bucket "
                    ++ bucket ++ ", " ++ Error err ++ LF)%string ;;;
         ret Continue
     | None => ret Continue
     end)
      {| world := world s4; flags := flags s4;
         trace := trace s4
                  ++ [Stdout ("You chose profile: " ++ profile
                              ++ " and bucket: " ++ bucket ++ LF)%string] |}
  /\ (exists evs,
        trace (snd (menu_case_bucket s))
        = trace s4
          ++ Stdout ("You chose profile: " ++ profile ++ " and bucket: "
                     ++ bucket ++ LF)%string
             :: EvListMultipartUploads (s3.New sess None) (listInput bucket)
             :: evs
        /\ Forall (fun e =>
                     (exists u, e = EvAbortMultipartUpload (s3.New sess None)
                                      (abortInput bucket u))
                     \/ exists text, e = Stdout text)
             evs)
  /\ flags s1 = flags s
  /\ (forall fuel s0, flags (snd (menu (P := P) fuel s0)) = flags s0).
Proof.
  intros Hchoice Hload Hretr Hcreate Hbucket.
  assert (Hf1 : flags s1 = flags s).
  { destruct (emits_GetProfileChoice (fun _ => True) s) as [Hf _];
      try (intros; exact I).
    rewrite Hchoice in Hf. assumption. }
  assert (Hcred : GetCredentialsForProfile (profileFlag (flags s)) s1
                  = (Ret (inr creds),
                     after (after s1 (EvLoadDefaultConfig
                                        (loadedProfile (profileFlag (flags s))))
                              w1)
                       (EvRetrieve cfg) w2)).
  { rewrite GetCredentialsForProfile_run, Hload, Hretr. reflexivity. }
  assert (Hrun : menu_case_bucket s
                 = (err <- AbortFailedMultipartUploadsInBucket sess bucket ;;
                    match err with
                    | Some err =>
                        fmt_Print
                          ("Error occurred expiring multipart uploads in bucket "
                           ++ bucket ++ ", " ++ Error err ++ LF)%string ;;;
                        ret Continue
                    | None => ret Continue
                    end)
                     {| world := world s4; flags := flags s4;
                        trace := trace s4
                                 ++ [Stdout ("You chose profile: " ++ profile
                                             ++ " and bucket: " ++ bucket
                                             ++ LF)%string] |}).
  { unfold menu_case_bucket. rewrite (bind_Ret _ _ _ _ _ Hchoice).
    unfold menu_case_bucket_rest.
    change (bind getFlags ?k s1) with (k (flags s1) s1). cbv beta.
    rewrite Hf1. rewrite (bind_Ret _ _ _ _ _ Hcred).
    rewrite (bind_call _ _ _
               (after (after s1 (EvLoadDefaultConfig
                                   (loadedProfile (profileFlag (flags s))))
                         w1)
                  (EvRetrieve cfg) w2)
               _ _ Hcreate).
    rewrite (bind_Ret _ _ _ _ _ Hbucket). reflexivity. }
  split; [exact Hrun|]. split; [|split; [exact Hf1|]].
  - rewrite Hrun. unfold bind at 1.
    destruct (bucket_events sess bucket
                {| world := world s4; flags := flags s4;
                   trace := trace s4
                            ++ [Stdout ("You chose profile: " ++ profile
                                        ++ " and bucket: " ++ bucket
                                        ++ LF)%string] |})
      as [evs [Ht HQ]].
    assert (HQ' : Forall (fun e =>
                            (exists u, e = EvAbortMultipartUpload
                                             (s3.New sess None)
                                             (abortInput bucket u))
                            \/ exists text, e = @Stdout P text) evs).
    { eapply Forall_impl; [|exact HQ]. intros e He. left. exact He. }
    destruct (AbortFailedMultipartUploadsInBucket sess bucket _)
      as [[[err|]| | |] s5];
      unfold bind, fmt_Print, emit, ret; cbn [fst snd trace] in Ht |- *;
      try solve [exists evs; rewrite Ht, <- app_assoc; split;
                 [reflexivity | exact HQ']].
    exists (evs ++ [Stdout ("Error occurred expiring multipart uploads in bucket "
                            ++ bucket ++ ", " ++ Error err ++ LF)%string]).
    rewrite Ht, <- !app_assoc. split; [reflexivity|].
    apply Forall_app. split; [exact HQ'|].
    constructor; [right; eexists; reflexivity | constructor].
  - intros fuel s0. apply menu_keeps_flags.
Qed.

End MenuSession.

(** C9 on the store: no profile flag was given and the user picks [prod]
    and its bucket [p].  The credentials are those of [default], the
    session is created for the empty profile name, the buckets offered are
    those of [prod], and the upload of bucket [p] is aborted through the
    session of [default]. *)
Lemma C9_witness :
  menu_case_bucket (P := Sim.sdk) (Sim.start Examples.storeMenu)
  = (Ret Continue,
     Build_State Sim.sdk (Examples.store [] [] false [] 1000 [] []) initFlags
       [EvIniLoad "/home/ops/.aws/config";
        EvPrompt "Please select a profile" ["default"; "prod"];
        EvLoadDefaultConfig "default";
        EvRetrieve (P := Sim.sdk) "default";
        EvCreateSession (P := Sim.sdk) "" "default";
        EvNewSession "prod";
        EvListBuckets (P := Sim.sdk) (s3.New "prod" (Some "ap-southeast-2"));
        EvPrompt "Please select a bucket" ["p"];
        Stdout ("You chose profile: prod and bucket: p" ++ LF);
        EvListMultipartUploads (Examples.svc "default") (listInput "p");
        EvAbortMultipartUpload (Examples.svc "default")
          (abortInput "p" Examples.up1)]).
Proof.
  rewrite (proj1 (C9_menu_session_comes_from_profileFlag (P := Sim.sdk)
                    (Sim.start Examples.storeMenu)
                    (snd (GetProfileChoice (P := Sim.sdk)
                            (Sim.start Examples.storeMenu)))
                    (snd (GetBucketChoice (P := Sim.sdk) "prod"
                            (Build_State Sim.sdk
                               (Sim.with_answers Examples.storeMenu ["p"])
                               initFlags
                               [EvIniLoad "/home/ops/.aws/config";
                                EvPrompt "Please select a profile"
                                  ["default"; "prod"];
                                EvLoadDefaultConfig "default";
                                EvRetrieve (P := Sim.sdk) "default";
                                EvCreateSession (P := Sim.sdk) ""
                                  "default"])))
                    "prod" "p" "default" "default" "default"
                    (Sim.with_answers Examples.storeMenu ["p"])
                    (Sim.with_answers Examples.storeMenu ["p"])
                    (Sim.with_answers Examples.storeMenu ["p"])
                    eq_refl eq_refl eq_refl eq_refl eq_refl)).
  vm_compute. reflexivity.
Defined.
